(** * cf_ai_task_manager: command parser, per-user task store, chat handler

    A shallow embedding of [src/utils.ts] (parseCommand), of the Durable
    Object [TaskManager] (taskManager.ts) and of the Worker's [fetch]
    handler ([src/index.ts]), with the properties of the design document
    proved over it.

    Strings.  A JavaScript string is a sequence of UTF-16 code units.  The
    embedding uses [string], whose characters are the code units
    U+0000..U+00FF (Latin-1).  On that range [toLowerCase] maps one code
    unit to one code unit, and white space (what [trim] removes and what
    the regular expression class \s matches) is U+0009..U+000D, U+0020 and
    U+00A0.  Code units above U+00FF are outside the embedding; among
    them is U+0130, whose lower case is two code units long, so that an
    index found in [remainder.toLowerCase()] is no longer an index of
    [remainder]; the module [Wide] runs parseCommand over code units to
    reach that input, and agrees with the Latin-1 embedding elsewhere.
    The module [Unicode] is parseCommand over code units with the case
    tables as parameters: what holds of every message, whatever the
    tables say, is stated over it.

    Effects.  The handler and the Durable Object are computations over a
    [World] (the storage of every object of the namespace and the events
    observed so far) that return a value or throw.  What the platform
    supplies (idFromName, URL parsing, JSON.stringify to text, the model
    binding, random ids and the clock) is a parameter. *)

From Stdlib Require Import ZArith Lia Bool Ascii String List DecimalString.
From stdpp Require Import gmap strings.
Import ListNotations.

Local Open Scope string_scope.

(** ** JavaScript string primitives used by the sources *)

Module JS.

(** Code unit of a character. *)
Definition codeUnit (c : ascii) : N := N_of_ascii c.

(** WhiteSpace and LineTerminator code units below U+0100. *)
Definition isWhiteSpace (c : ascii) : bool :=
  let n := codeUnit c in
  ((9 <=? n) && (n <=? 13) || (n =? 32) || (n =? 160))%N.

(** [toLowerCase] on one code unit: A-Z, and U+00C0..U+00DE except U+00D7. *)
Definition lowerChar (c : ascii) : ascii :=
  let n := codeUnit c in
  if ((65 <=? n) && (n <=? 90))%N then ascii_of_N (n + 32)
  else if ((192 <=? n) && (n <=? 222) && negb (n =? 215))%N then ascii_of_N (n + 32)
  else c.

(** [s.toLowerCase()] *)
Fixpoint toLowerCase (s : string) : string :=
  match s with
  | EmptyString => EmptyString
  | String c s' => String (lowerChar c) (toLowerCase s')
  end.

(** [s.trimStart()]; also the greedy match of \s* at the head of [s]. *)
Fixpoint trimStart (s : string) : string :=
  match s with
  | EmptyString => EmptyString
  | String c s' => if isWhiteSpace c then trimStart s' else s
  end.

(** [s.trimEnd()] *)
Fixpoint trimEnd (s : string) : string :=
  match s with
  | EmptyString => EmptyString
  | String c s' =>
      match trimEnd s' with
      | EmptyString => if isWhiteSpace c then EmptyString else String c EmptyString
      | t => String c t
      end
  end.

(** [s.trim()] *)
Definition trim (s : string) : string := trimEnd (trimStart s).

(** [s.startsWith(p)] *)
Definition startsWith (s p : string) : bool := String.prefix p s.

(** [s.endsWith(p)] *)
Fixpoint endsWith (s p : string) : bool :=
  String.eqb s p ||
  match s with
  | EmptyString => false
  | String _ s' => endsWith s' p
  end.

(** [s.lastIndexOf(p)]: the largest index at which [p] occurs in [s],
    or -1.  [i] is the index of the head of [s] in the whole string. *)
Fixpoint lastIndexOfFrom (i : Z) (s p : string) : Z :=
  match s with
  | EmptyString => if String.prefix p EmptyString then i else (-1)%Z
  | String _ s' =>
      let r := lastIndexOfFrom (i + 1) s' p in
      if (0 <=? r)%Z then r
      else if String.prefix p s then i else (-1)%Z
  end.

Definition lastIndexOf (s p : string) : Z := lastIndexOfFrom 0 s p.

(** Argument clamping of [substring]: below 0 is 0, above the length is
    the length. *)
Definition clampIndex (s : string) (n : Z) : nat :=
  Z.to_nat (Z.min (Z.max n 0) (Z.of_nat (String.length s))).

(** [s.substring(a, b)]: the arguments are clamped, and swapped when
    a > b. *)
Definition substring (s : string) (a b : Z) : string :=
  let a' := clampIndex s a in
  let b' := clampIndex s b in
  String.substring (Nat.min a' b') (Nat.max a' b' - Nat.min a' b') s.

(** [s.substring(a)] *)
Definition substringFrom (s : string) (a : Z) : string :=
  substring s a (Z.of_nat (String.length s)).

(** Canonicalize of a case-insensitive regular expression without the
    u flag: the code unit of the upper-case form.  U+00FF maps to U+0178
    and U+00B5 to U+039C; U+00DF (whose upper case is two code units) and
    U+00F7 are left as they are. *)
Definition Canonicalize (c : ascii) : N :=
  let n := codeUnit c in
  if ((97 <=? n) && (n <=? 122))%N then (n - 32)%N
  else if ((224 <=? n) && (n <=? 254) && negb (n =? 247))%N then (n - 32)%N
  else if (n =? 255)%N then 376%N
  else if (n =? 181)%N then 924%N
  else n.

(** Match of a literal under the i flag at the head of [s]: the rest of
    [s] after the match. *)
Fixpoint matchLiteral (lit s : string) : option string :=
  match lit, s with
  | EmptyString, _ => Some s
  | String _ _, EmptyString => None
  | String l lit', String c s' =>
      if (Canonicalize l =? Canonicalize c)%N then matchLiteral lit' s' else None
  end.

(** Greedy match of \s+ at the head of [s]. *)
Definition matchSpaces1 (s : string) : option string :=
  match s with
  | EmptyString => None
  | String c s' => if isWhiteSpace c then Some (trimStart s') else None
  end.

(** An alternation of literals followed by \s+; the alternatives are
    tried in order, the next one when the literal or the \s+ after it
    fails. *)
Fixpoint matchKeyword (alts : list string) (s : string) : option string :=
  match alts with
  | [] => None
  | lit :: alts' =>
      match matchLiteral lit s with
      | Some r =>
          match matchSpaces1 r with
          | Some r' => Some r'
          | None => matchKeyword alts' s
          end
      | None => matchKeyword alts' s
      end
  end.

End JS.

(** ** src/utils.ts *)

Inductive Command : Type :=
  | CmdAdd (title : string) (dueDate : option string)
  | CmdList
  | CmdNone.

(** [lower === "list" || lower === "list tasks" || lower.startsWith("show tasks")] *)
Definition isListCommand (lower : string) : bool :=
  String.eqb lower "list" || String.eqb lower "list tasks"
  || JS.startsWith lower "show tasks".

(** [lower.startsWith("add ") || lower.startsWith("add task ") || lower.startsWith("create ")] *)
Definition isAddCommand (lower : string) : bool :=
  JS.startsWith lower "add " || JS.startsWith lower "add task "
  || JS.startsWith lower "create ".

(** [trimmed.replace(/^\s*(add task|add|create)\s+/i, "")]: the match is
    removed; with no match the string is returned as it is. *)
Definition removeKeyword (trimmed : string) : string :=
  match JS.matchKeyword ["add task"; "add"; "create"] (JS.trimStart trimmed) with
  | Some rest => rest
  | None => trimmed
  end.

(** Lines 40-51: the pair (dueDate, remainder) after the due date has been
    split off. *)
Definition splitDueDate (remainder : string) : option string * string :=
  let byIndex := JS.lastIndexOf (JS.toLowerCase remainder) " by " in
  let onIndex := JS.lastIndexOf (JS.toLowerCase remainder) " on " in
  let idx := Z.max byIndex onIndex in
  if (0 <=? idx)%Z then
    let keywordLength := if (onIndex <? byIndex)%Z then 4%Z else 4%Z in
    (Some (JS.trim (JS.substringFrom remainder (idx + keywordLength))),
     JS.trim (JS.substring remainder 0 idx))
  else (None, remainder).

(** [dueDate || undefined]: the empty string is falsy. *)
Definition orUndefined (dueDate : option string) : option string :=
  match dueDate with
  | Some EmptyString => None
  | d => d
  end.

(** Lines 38-57: the body of the add branch, from the trimmed message. *)
Definition parseAdd (trimmed : string) : Command :=
  let remainder := removeKeyword trimmed in
  let '(dueDate, remainder) := splitDueDate remainder in
  let title := JS.trim remainder in
  if (String.length title =? 0)%nat then CmdNone
  else CmdAdd title (orUndefined dueDate).

Definition parseCommand (message : string) : Command :=
  let trimmed := JS.trim message in
  let lower := JS.toLowerCase trimmed in
  if isListCommand lower then CmdList
  else if isAddCommand lower then parseAdd trimmed
  else CmdNone.

(** ** parseCommand over 16-bit code units

    The same code over strings of UTF-16 code units, to reach an input
    outside Latin-1.  White space is the whole set of [trim] and \s.  The
    case mappings are those of JavaScript for the code units up to U+00FF
    and for U+0130, LATIN CAPITAL LETTER I WITH DOT ABOVE, whose lower
    case is the two code units U+0069 U+0307; every other code unit is
    left as it is, which is right for U+0307 and for the uncased ones
    only (U+212A, KELVIN SIGN, is lower-cased to k by JavaScript and not
    here).  The module serves for messages within that range; what is
    said of every message is said over [Unicode] below. *)

Module Wide.

(** The code units of a Latin-1 string. *)
Fixpoint units (s : string) : list N :=
  match s with
  | EmptyString => []
  | String c s' => JS.codeUnit c :: units s'
  end.

Definition isWhiteSpace (n : N) : bool :=
  ((9 <=? n) && (n <=? 13) || (n =? 32) || (n =? 160)
   || (n =? 5760) || (8192 <=? n) && (n <=? 8202)
   || (n =? 8232) || (n =? 8233) || (n =? 8239) || (n =? 8287)
   || (n =? 12288) || (n =? 65279))%N.

Definition lowerUnit (n : N) : list N :=
  if ((65 <=? n) && (n <=? 90))%N then [(n + 32)%N]
  else if ((192 <=? n) && (n <=? 222) && negb (n =? 215))%N then [(n + 32)%N]
  else if (n =? 304)%N then [105%N; 775%N]
  else [n].

Definition toLowerCase (s : list N) : list N := flat_map lowerUnit s.

Fixpoint trimStart (s : list N) : list N :=
  match s with
  | [] => []
  | c :: s' => if isWhiteSpace c then trimStart s' else s
  end.

Fixpoint trimEnd (s : list N) : list N :=
  match s with
  | [] => []
  | c :: s' =>
      match trimEnd s' with
      | [] => if isWhiteSpace c then [] else [c]
      | t => c :: t
      end
  end.

Definition trim (s : list N) : list N := trimEnd (trimStart s).

Fixpoint eqb (s p : list N) : bool :=
  match s, p with
  | [], [] => true
  | c :: s', d :: p' => (c =? d)%N && eqb s' p'
  | _, _ => false
  end.

Fixpoint prefix (p s : list N) : bool :=
  match p, s with
  | [], _ => true
  | d :: p', c :: s' => (d =? c)%N && prefix p' s'
  | _ :: _, [] => false
  end.

Definition startsWith (s p : list N) : bool := prefix p s.

Fixpoint lastIndexOfFrom (i : Z) (s p : list N) : Z :=
  match s with
  | [] => if prefix p [] then i else (-1)%Z
  | _ :: s' =>
      let r := lastIndexOfFrom (i + 1) s' p in
      if (0 <=? r)%Z then r
      else if prefix p s then i else (-1)%Z
  end.

Definition lastIndexOf (s p : list N) : Z := lastIndexOfFrom 0 s p.

Definition clampIndex (s : list N) (n : Z) : nat :=
  Z.to_nat (Z.min (Z.max n 0) (Z.of_nat (length s))).

Definition substring (s : list N) (a b : Z) : list N :=
  let a' := clampIndex s a in
  let b' := clampIndex s b in
  firstn (Nat.max a' b' - Nat.min a' b') (skipn (Nat.min a' b') s).

Definition substringFrom (s : list N) (a : Z) : list N :=
  substring s a (Z.of_nat (length s)).

Definition Canonicalize (n : N) : N :=
  if ((97 <=? n) && (n <=? 122))%N then (n - 32)%N
  else if ((224 <=? n) && (n <=? 254) && negb (n =? 247))%N then (n - 32)%N
  else if (n =? 255)%N then 376%N
  else if (n =? 181)%N then 924%N
  else n.

Fixpoint matchLiteral (lit s : list N) : option (list N) :=
  match lit, s with
  | [], _ => Some s
  | _ :: _, [] => None
  | l :: lit', c :: s' =>
      if (Canonicalize l =? Canonicalize c)%N then matchLiteral lit' s' else None
  end.

Definition matchSpaces1 (s : list N) : option (list N) :=
  match s with
  | [] => None
  | c :: s' => if isWhiteSpace c then Some (trimStart s') else None
  end.

Fixpoint matchKeyword (alts : list (list N)) (s : list N) : option (list N) :=
  match alts with
  | [] => None
  | lit :: alts' =>
      match matchLiteral lit s with
      | Some r =>
          match matchSpaces1 r with
          | Some r' => Some r'
          | None => matchKeyword alts' s
          end
      | None => matchKeyword alts' s
      end
  end.

Inductive Command : Type :=
  | CmdAdd (title : list N) (dueDate : option (list N))
  | CmdList
  | CmdNone.

Definition isListCommand (lower : list N) : bool :=
  eqb lower (units "list") || eqb lower (units "list tasks")
  || startsWith lower (units "show tasks").

Definition isAddCommand (lower : list N) : bool :=
  startsWith lower (units "add ") || startsWith lower (units "add task ")
  || startsWith lower (units "create ").

Definition removeKeyword (trimmed : list N) : list N :=
  match matchKeyword [units "add task"; units "add"; units "create"] (trimStart trimmed) with
  | Some rest => rest
  | None => trimmed
  end.

Definition splitDueDate (remainder : list N) : option (list N) * list N :=
  let byIndex := lastIndexOf (toLowerCase remainder) (units " by ") in
  let onIndex := lastIndexOf (toLowerCase remainder) (units " on ") in
  let idx := Z.max byIndex onIndex in
  if (0 <=? idx)%Z then
    let keywordLength := if (onIndex <? byIndex)%Z then 4%Z else 4%Z in
    (Some (trim (substringFrom remainder (idx + keywordLength))),
     trim (substring remainder 0 idx))
  else (None, remainder).

Definition orUndefined (dueDate : option (list N)) : option (list N) :=
  match dueDate with
  | Some [] => None
  | d => d
  end.

Definition parseAdd (trimmed : list N) : Command :=
  let remainder := removeKeyword trimmed in
  let '(dueDate, remainder) := splitDueDate remainder in
  let title := trim remainder in
  if (length title =? 0)%nat then CmdNone
  else CmdAdd title (orUndefined dueDate).

Definition parseCommand (message : list N) : Command :=
  let trimmed := trim message in
  let lower := toLowerCase trimmed in
  if isListCommand lower then CmdList
  else if isAddCommand lower then parseAdd trimmed
  else CmdNone.

End Wide.

(** A command of the Latin-1 embedding, in code units. *)
Definition wideCommand (c : Command) : Wide.Command :=
  match c with
  | CmdAdd t d => Wide.CmdAdd (Wide.units t) (option_map Wide.units d)
  | CmdList => Wide.CmdList
  | CmdNone => Wide.CmdNone
  end.

(** "add İ by x": the letter is U+0130. *)
Definition addCapitalIDot : list N :=
  (Wide.units "add " ++ [304%N] ++ Wide.units " by x")%list.

(** ** parseCommand over code units, for any case tables

    [toLowerCase] and the Canonicalize of a regular expression with the
    i flag follow the Unicode tables of the platform.  Here they are
    parameters, so that what is proved of this [parseCommand] holds for
    every message of code units whatever the tables say; [Wide] is the
    instance with the tables given there.  [trim], \s, [startsWith],
    [lastIndexOf] and [substring] do not look at the tables and are those
    of [Wide]. *)

Module Unicode.

Section Tables.

(** [s.toLowerCase()], of the whole string. *)
Variable toLowerCase : list N -> list N.

(** Canonicalize of one code unit. *)
Variable Canonicalize : N -> N.

Fixpoint matchLiteral (lit s : list N) : option (list N) :=
  match lit, s with
  | [], _ => Some s
  | _ :: _, [] => None
  | l :: lit', c :: s' =>
      if (Canonicalize l =? Canonicalize c)%N then matchLiteral lit' s' else None
  end.

Fixpoint matchKeyword (alts : list (list N)) (s : list N) : option (list N) :=
  match alts with
  | [] => None
  | lit :: alts' =>
      match matchLiteral lit s with
      | Some r =>
          match Wide.matchSpaces1 r with
          | Some r' => Some r'
          | None => matchKeyword alts' s
          end
      | None => matchKeyword alts' s
      end
  end.

Definition removeKeyword (trimmed : list N) : list N :=
  match matchKeyword [Wide.units "add task"; Wide.units "add"; Wide.units "create"]
                     (Wide.trimStart trimmed) with
  | Some rest => rest
  | None => trimmed
  end.

Definition splitDueDate (remainder : list N) : option (list N) * list N :=
  let byIndex := Wide.lastIndexOf (toLowerCase remainder) (Wide.units " by ") in
  let onIndex := Wide.lastIndexOf (toLowerCase remainder) (Wide.units " on ") in
  let idx := Z.max byIndex onIndex in
  if (0 <=? idx)%Z then
    let keywordLength := if (onIndex <? byIndex)%Z then 4%Z else 4%Z in
    (Some (Wide.trim (Wide.substringFrom remainder (idx + keywordLength))),
     Wide.trim (Wide.substring remainder 0 idx))
  else (None, remainder).

Definition parseAdd (trimmed : list N) : Wide.Command :=
  let remainder := removeKeyword trimmed in
  let '(dueDate, remainder) := splitDueDate remainder in
  let title := Wide.trim remainder in
  if (length title =? 0)%nat then Wide.CmdNone
  else Wide.CmdAdd title (Wide.orUndefined dueDate).

Definition parseCommand (message : list N) : Wide.Command :=
  let trimmed := Wide.trim message in
  let lower := toLowerCase trimmed in
  if Wide.isListCommand lower then Wide.CmdList
  else if Wide.isAddCommand lower then parseAdd trimmed
  else Wide.CmdNone.

End Tables.

End Unicode.

(** ** Values exchanged as JSON

    A number is kept as its decimal rendering, the string [String(n)]
    gives (so both zeros are ["0"]); an object as the list of its
    properties, where the first binding of a name is the property. *)

#[warnings="-register-all"]
Inductive json : Type :=
  | JNull
  | JBool (b : bool)
  | JNum (repr : string)
  | JStr (s : string)
  | JArr (items : list json)
  | JObj (fields : list (string * json)).

(** A JavaScript value read from parsed JSON: [None] is [undefined]. *)
Abbreviation jsval := (option json).

Fixpoint lookupField (fields : list (string * json)) (name : string) : jsval :=
  match fields with
  | [] => None
  | (k, v) :: rest => if String.eqb k name then Some v else lookupField rest name
  end.

(** [v.name] for a value [v] other than null and undefined, for the
    property names the sources read (title, dueDate, userId, message,
    response, choices, content): none is defined on a string, a number, a
    boolean or an array. *)
Definition getProp (v : json) (name : string) : jsval :=
  match v with
  | JObj fields => lookupField fields name
  | _ => None
  end.

(** [v[0]] for a value other than null and undefined. *)
Definition getIndex0 (v : json) : jsval :=
  match v with
  | JArr (x :: _) => Some x
  | JStr (String c _) => Some (JStr (String c EmptyString))
  | JObj fields => lookupField fields "0"
  | _ => None
  end.

(** [a?.name] *)
Definition optProp (a : jsval) (name : string) : jsval :=
  match a with
  | None | Some JNull => None
  | Some v => getProp v name
  end.

(** [a?.[0]] *)
Definition optIndex0 (a : jsval) : jsval :=
  match a with
  | None | Some JNull => None
  | Some v => getIndex0 v
  end.

(** [a ?? b], where [b] is neither null nor undefined *)
Definition nullish (a : jsval) (b : json) : json :=
  match a with
  | None | Some JNull => b
  | Some v => v
  end.

(** ToBoolean *)
Definition truthy (v : jsval) : bool :=
  match v with
  | None | Some JNull => false
  | Some (JBool b) => b
  | Some (JNum repr) => negb (String.eqb repr "0")
  | Some (JStr s) => negb (String.eqb s "")
  | Some (JArr _) | Some (JObj _) => true
  end.

(** [String(v)] of a JSON value, and the same conversion in a template
    literal; [None] where it throws a TypeError.  An object is converted by
    its toString property: one read from JSON is never a function, so an
    object that has an own property of that name cannot be converted (the
    inherited valueOf gives back the object), and any other object gives
    "[object Object]".  An array joins its elements with commas, null
    elements as the empty string, and cannot be converted when one of its
    elements cannot. *)
Fixpoint toStringJson (v : json) : option string :=
  match v with
  | JNull => Some "null"
  | JBool true => Some "true"
  | JBool false => Some "false"
  | JNum repr => Some repr
  | JStr s => Some s
  | JArr items =>
      (fix join (l : list json) : option string :=
         match l with
         | [] => Some ""
         | x :: l' =>
             match (match x with JNull => Some "" | _ => toStringJson x end) with
             | None => None
             | Some e =>
                 match l' with
                 | [] => Some e
                 | _ =>
                     match join l' with
                     | Some r => Some (e ++ "," ++ r)
                     | None => None
                     end
                 end
             end
         end) items
  | JObj fields =>
      match lookupField fields "toString" with
      | Some _ => None
      | None => Some "[object Object]"
      end
  end.

(** [String(v)] *)
Definition toString (v : jsval) : option string :=
  match v with
  | None => Some "undefined"
  | Some j => toStringJson j
  end.

(** Decimal rendering of an array index. *)
Definition natToString (n : nat) : string :=
  NilZero.string_of_uint (Nat.to_uint n).

(** ** Requests, responses, exceptions *)

Inductive Body : Type :=
  | NoBody
  | BodyText (text : string)  (* text that is not JSON *)
  | BodyJson (value : json).  (* JSON.stringify(value) *)

Record Request : Type := mkRequest {
  method : string;
  url : string;
  requestBody : Body
}.

Record Response : Type := mkResponse {
  status : Z;
  headers : list (string * string);
  responseBody : Body
}.

Inductive Exn : Type :=
  | SyntaxError
  | TypeError
  | ServiceError (what : string).

(** ** taskManager.ts: the Task record *)

Record Task : Type := mkTask {
  id : string;
  title : string;
  dueDate : option string;
  createdAt : string
}.

(** The value [JSON.stringify(task)] serialises: an undefined dueDate is
    left out. *)
Definition taskToJson (t : Task) : json :=
  JObj ([("id", JStr (id t)); ("title", JStr (title t))]
        ++ match dueDate t with
           | Some d => [("dueDate", JStr d)]
           | None => []
           end
        ++ [("createdAt", JStr (createdAt t))])%list.

(** ** The world outside one request *)

(** What the platform observes of a request. *)
Inductive Event : Type :=
  | StorageGet (object key : string)
  | StoragePut (object key : string)
  | ModelRun (model : string)
  | ConsoleError (text : string).

(** The storage of every Durable Object of the TASK_MANAGER namespace, by
    object id, and the events so far (latest last). *)
Record World : Type := mkWorld {
  objects : gmap string (gmap string (list Task));
  events : list Event
}.

(** What one call of [env.AI.run] does. *)
Inductive AiOutcome : Type :=
  | AiThrows (e : Exn)
  | AiReturns (result : jsval).

(** The environment of one request: the model binding, and what
    [crypto.randomUUID()] and [new Date().toISOString()] give. *)
Record Env : Type := mkEnv {
  AI_run : string -> list (string * string) -> AiOutcome;
  randomUUID : string;
  nowISO : string
}.

(** What the platform and the constants of index.ts contribute:
    [env.TASK_MANAGER.idFromName], [new URL(u).pathname], [JSON.stringify]
    to text, and the two long string constants. *)
Record Platform : Type := mkPlatform {
  idFromName : string -> string;
  pathname : string -> string;
  stringify : json -> string;
  HTML_PAGE : string;
  SYSTEM_PROMPT : string
}.

(** ** Computations: state and exceptions *)

Inductive Outcome (A : Type) : Type :=
  | Ret (a : A)
  | Throw (e : Exn).
Arguments Ret {A} a.
Arguments Throw {A} e.

Definition M (A : Type) : Type := World -> Outcome A * World.

Definition ret {A} (a : A) : M A := fun w => (Ret a, w).

Definition throw {A} (e : Exn) : M A := fun w => (Throw e, w).

Definition bind {A B} (m : M A) (k : A -> M B) : M B :=
  fun w =>
    match m w with
    | (Ret a, w') => k a w'
    | (Throw e, w') => (Throw e, w')
    end.

(** [try { m } catch (err) { handler err }] *)
Definition tryCatch {A} (m : M A) (handler : Exn -> M A) : M A :=
  fun w =>
    match m w with
    | (Ret a, w') => (Ret a, w')
    | (Throw e, w') => handler e w'
    end.

Notation "x <- m ;; k" := (bind m (fun x => k))
  (at level 100, m at next level, right associativity).
Notation "m ;;; k" := (bind m (fun _ => k))
  (at level 100, right associativity).

Definition emit (e : Event) : M unit :=
  fun w => (Ret tt, mkWorld (objects w) (events w ++ [e])%list).

(** [await this.state.storage.get(key)] of the object [self] *)
Definition storageGet (self key : string) : M (option (list Task)) :=
  emit (StorageGet self key) ;;;
  fun w => (Ret (objects w !! self ≫= fun st => st !! key), w).

(** [await this.state.storage.put(key, value)] of the object [self] *)
Definition storagePut (self key : string) (value : list Task) : M unit :=
  emit (StoragePut self key) ;;;
  fun w =>
    (Ret tt,
     mkWorld (<[self := <[key := value]> (default ∅ (objects w !! self))]> (objects w))
             (events w)).

(** [await request.json()] and [await response.json()] *)
Definition bodyJson (b : Body) : M json :=
  match b with
  | BodyJson v => ret v
  | _ => throw SyntaxError
  end.

(** Reading a property in a destructuring pattern: null has none. *)
Definition destructure (v : json) (name : string) : M jsval :=
  match v with
  | JNull => throw TypeError
  | _ => ret (getProp v name)
  end.

(** [String(v)] as a step of a computation. *)
Definition toStringM (v : jsval) : M string :=
  match toString v with
  | Some s => ret s
  | None => throw TypeError
  end.

Definition jsonHeaders : list (string * string) :=
  [("Content-Type", "application/json")].

(** The header [new Response(text, { status })] gets when none is given
    for a body of text. *)
Definition textHeaders : list (string * string) :=
  [("content-type", "text/plain;charset=UTF-8")].

Definition notFound : Response := mkResponse 404 textHeaders (BodyText "Not found").

Section Sources.

Variable P : Platform.

(** ** taskManager.ts: TaskManager.fetch, for the object [self] *)

Definition TaskManager_fetch (self : string) (env : Env) (request : Request)
  : M Response :=
  let path := pathname P (url request) in
  stored <- storageGet self "tasks" ;;
  let tasks := default [] stored in
  if String.eqb (method request) "POST" && JS.endsWith path "/add" then
    v <- bodyJson (requestBody request) ;;
    title <- destructure v "title" ;;
    dueDate <- destructure v "dueDate" ;;
    titleText <- toStringM title ;;
    dueText <- (if truthy dueDate
                then (text <- toStringM dueDate ;; ret (Some text))
                else ret None) ;;
    let task :=
      {| id := randomUUID env;
         title := titleText;
         dueDate := dueText;
         createdAt := nowISO env |} in
    let tasks := (tasks ++ [task])%list in
    storagePut self "tasks" tasks ;;;
    ret (mkResponse 201 jsonHeaders (BodyJson (taskToJson task)))
  else if String.eqb (method request) "GET" && JS.endsWith path "/list" then
    ret (mkResponse 200 jsonHeaders (BodyJson (JArr (map taskToJson tasks))))
  else ret notFound.

(** ** index.ts *)

Definition model : string := "@cf/meta/llama-3.3-70b-instruct-fp8-fast".

Definition unavailable : string :=
  "The AI model is currently unavailable. Please try again later.".

Definition quote : string := String (ascii_of_nat 34) EmptyString.

(** [JSON.stringify({ title: cmd.title, dueDate: cmd.dueDate })] *)
Definition addBody (title : string) (dueDate : option string) : Body :=
  BodyJson (JObj (("title", JStr title)
                  :: match dueDate with
                     | Some d => [("dueDate", JStr d)]
                     | None => []
                     end)).

(** One line of the list reply; reading a property of null throws, and
    so does a title or due date that cannot be converted to a string. *)
Definition taskLine (idx : nat) (t : json) : M string :=
  title <- destructure t "title" ;;
  titleText <- toStringM title ;;
  dueDate <- destructure t "dueDate" ;;
  dueText <- (if truthy dueDate
              then (text <- toStringM dueDate ;; ret (" (due " ++ text ++ ")"))
              else ret "") ;;
  ret (natToString (idx + 1) ++ ". " ++ titleText ++ dueText).

Fixpoint taskLines (idx : nat) (tasks : list json) : M (list string) :=
  match tasks with
  | [] => ret []
  | t :: rest =>
      line <- taskLine idx t ;;
      lines <- taskLines (S idx) rest ;;
      ret (line :: lines)
  end.

Definition listReply (tasks : json) : M string :=
  match tasks with
  | JArr (t :: rest) =>
      lines <- taskLines 0 (t :: rest) ;;
      ret (String.concat (String (ascii_of_nat 10) EmptyString) lines)
  | _ => ret "You have no tasks."
  end.

(** Line 144: the reply taken from the model's result. *)
Definition extractReply (result : jsval) : M json :=
  match result with
  | Some (JStr s) => ret (JStr s)
  | None | Some JNull => throw TypeError
  | Some r =>
      let content :=
        optProp (optProp (optIndex0 (optProp (Some r) "choices")) "message") "content" in
      ret (nullish (getProp r "response") (nullish content (JStr (stringify P r))))
  end.

(** [await env.AI.run(model, { messages })] *)
Definition aiRun (env : Env) (messages : list (string * string)) : M jsval :=
  emit (ModelRun model) ;;;
  match AI_run env model messages with
  | AiThrows e => throw e
  | AiReturns result => ret result
  end.

Definition replyResponse (st : Z) (fields : list (string * json)) : Response :=
  mkResponse st jsonHeaders (BodyJson (JObj fields)).

(** Lines 104-152: what the handler does once userId and message are
    known to be strings. *)
Definition respond (env : Env) (userId message : string) : M Response :=
  let cmd := parseCommand message in
  let stubId := idFromName P userId in
  match cmd with
  | CmdAdd title dueDate =>
      TaskManager_fetch stubId env
        (mkRequest "POST" ("https://task/" ++ userId ++ "/add") (addBody title dueDate)) ;;;
      let reply :=
        "Added task " ++ quote ++ title ++ quote
        ++ (if truthy (option_map JStr dueDate)
            then " due by " ++ default "" dueDate else "")
        ++ "." in
      ret (replyResponse 200 [("reply", JStr reply)])
  | CmdList =>
      listRes <- TaskManager_fetch stubId env
                   (mkRequest "GET" ("https://task/" ++ userId ++ "/list") NoBody) ;;
      tasks <- bodyJson (responseBody listRes) ;;
      reply <- listReply tasks ;;
      ret (replyResponse 200 [("reply", JStr reply); ("tasks", tasks)])
  | CmdNone =>
      let messages := [("system", SYSTEM_PROMPT P); ("user", message)] in
      tryCatch
        (result <- aiRun env messages ;;
         reply <- extractReply result ;;
         ret (replyResponse 200 [("reply", reply)]))
        (fun err =>
           emit (ConsoleError "AI model invocation failed") ;;;
           ret (replyResponse 503 [("reply", JStr unavailable)]))
  end.

(** Lines 99-152: the body of the outer try block. *)
Definition chat (env : Env) (request : Request) : M Response :=
  v <- bodyJson (requestBody request) ;;
  userId <- destructure v "userId" ;;
  message <- destructure v "message" ;;
  match userId, message with
  | Some (JStr userId), Some (JStr message) => respond env userId message
  | _, _ => ret (mkResponse 400 textHeaders (BodyText "Invalid request body"))
  end.

(** The Worker's [fetch]. *)
Definition fetch (env : Env) (request : Request) : M Response :=
  let path := pathname P (url request) in
  if String.eqb path "/" && String.eqb (method request) "GET" then
    ret (mkResponse 200 [("Content-Type", "text/html; charset=utf-8")]
           (BodyText (HTML_PAGE P)))
  else if String.eqb path "/api/chat" && String.eqb (method request) "POST" then
    tryCatch (chat env request)
             (fun err => ret (mkResponse 400 textHeaders (BodyText "Bad Request")))
  else ret notFound.

End Sources.

(** ** Notions used in the statements *)

(** The string starts with white space. *)
Definition startsWhite (s : string) : bool :=
  match s with
  | EmptyString => false
  | String c _ => JS.isWhiteSpace c
  end.

(** The string ends with white space. *)
Fixpoint endsWhite (s : string) : bool :=
  match s with
  | EmptyString => false
  | String c EmptyString => JS.isWhiteSpace c
  | String _ s' => endsWhite s'
  end.

(** Every character is white space. *)
Fixpoint allWhite (s : string) : bool :=
  match s with
  | EmptyString => true
  | String c s' => JS.isWhiteSpace c && allWhite s'
  end.

(** [p] occurs in [s] at index [i]. *)
Definition occursAt (p s : string) (i : nat) : Prop :=
  exists pre post, s = pre ++ p ++ post /\ String.length pre = i.

(** The lower-cased remainder holds " by " or " on " at index [i]. *)
Definition dateKeywordAt (remainder : string) (i : nat) : Prop :=
  occursAt " by " (JS.toLowerCase remainder) i \/
  occursAt " on " (JS.toLowerCase remainder) i.

(** [kw] is one of the command keywords, in any casing. *)
Definition isKeyword (kw : string) : Prop :=
  In (JS.toLowerCase kw) ["add task"; "add"; "create"].

(** [sep] is " by " or " on ", in any casing. *)
Definition isDateKeyword (sep : string) : Prop :=
  JS.toLowerCase sep = " by " \/ JS.toLowerCase sep = " on ".

(** A lower-case letter a-z or a space: the characters of the patterns. *)
Definition plainChar (c : ascii) : bool :=
  let n := JS.codeUnit c in ((n =? 32) || (97 <=? n) && (n <=? 122))%N.

Fixpoint allPlain (s : string) : bool :=
  match s with
  | EmptyString => true
  | String c s' => plainChar c && allPlain s'
  end.

(** Every code unit is white space. *)
Definition allWhiteUnits (s : list N) : bool := forallb Wide.isWhiteSpace s.

(** The first code unit is white space. *)
Definition startsWhiteUnits (s : list N) : bool :=
  match s with
  | [] => false
  | c :: _ => Wide.isWhiteSpace c
  end.

(** The last code unit is white space. *)
Fixpoint endsWhiteUnits (s : list N) : bool :=
  match s with
  | [] => false
  | [c] => Wide.isWhiteSpace c
  | _ :: s' => endsWhiteUnits s'
  end.

(** [p] occurs in [s] at index [i]. *)
Definition occursAtUnits (p s : list N) (i : nat) : Prop :=
  exists pre post, s = (pre ++ p ++ post)%list /\ length pre = i.

(** The lower-cased copy holds " by " or " on " at index [i]. *)
Definition dateKeywordAtUnits (lower : list N) (i : nat) : Prop :=
  occursAtUnits (Wide.units " by ") lower i \/
  occursAtUnits (Wide.units " on ") lower i.

(** What the statements about every message ask of [toLowerCase]: the
    lower case of the empty string is empty, and the lower case of a text
    that does not start with white space does not start with a space. *)
Definition lowerKeepsStart (toLowerCase : list N -> list N) : Prop :=
  toLowerCase [] = [] /\
  forall s, startsWhiteUnits s = false ->
            Wide.startsWith (toLowerCase s) [32%N] = false.

(** The split point of lines 44-46: [Math.max(byIndex, onIndex)]. *)
Definition splitIndex (remainder : string) : Z :=
  Z.max (JS.lastIndexOf (JS.toLowerCase remainder) " by ")
        (JS.lastIndexOf (JS.toLowerCase remainder) " on ").


(** The task list of the object [self]: what [list] reads. *)
Definition tasksOf (w : World) (self : string) : list Task :=
  default [] (objects w !! self ≫= fun st => st !! "tasks").

(** The Durable Object an event reads or writes, when it is a storage
    access. *)
Definition eventObject (e : Event) : option string :=
  match e with
  | StorageGet object _ | StoragePut object _ => Some object
  | ModelRun _ | ConsoleError _ => None
  end.

(** [response.ok]: the status is in the range 200-299. *)
Definition Response_ok (r : Response) : bool :=
  ((200 <=? status r) && (status r <=? 299))%Z.

(** The body parses as JSON and its userId and message are strings
    (line 100). *)
Definition hasStringFields (b : Body) : bool :=
  match b with
  | BodyJson v =>
      match getProp v "userId", getProp v "message" with
      | Some (JStr _), Some (JStr _) => true
      | _, _ => false
      end
  | _ => false
  end.

(** One [add(title, dueDate)] on a store: the environment of the call
    and the URL it is sent to. *)
Record AddCall : Type := mkAddCall {
  callEnv : Env;
  callUrl : string;
  callTitle : string;
  callDue : option string
}.

Definition addRequest (c : AddCall) : Request :=
  mkRequest "POST" (callUrl c) (addBody (callTitle c) (callDue c)).

Definition listRequest (u : string) : Request := mkRequest "GET" u NoBody.

(** The task an add call creates. *)
Definition addedTask (c : AddCall) : Task :=
  {| id := randomUUID (callEnv c);
     title := callTitle c;
     dueDate := match callDue c with
                | Some EmptyString | None => None
                | Some d => Some d
                end;
     createdAt := nowISO (callEnv c) |}.

(** The add calls sent to the object [self] one after the other. *)
Fixpoint runAdds (P : Platform) (self : string) (calls : list AddCall) (w : World) : World :=
  match calls with
  | [] => w
  | c :: rest =>
      runAdds P self rest (snd (TaskManager_fetch P self (callEnv c) (addRequest c) w))
  end.

(** The chat request of a user. *)
Definition chatRequest (u : string) (userId message : string) : Request :=
  mkRequest "POST" u (BodyJson (JObj [("userId", JStr userId); ("message", JStr message)])).

(** *** A platform for closed examples

    The pathname is the text from the first slash after the host up to a
    question mark or hash; object ids are the name behind a prefix;
    [stringify] is a stand-in that no example reaches. *)

Fixpoint untilQuery (s : string) : string :=
  match s with
  | EmptyString => EmptyString
  | String c s' =>
      if (Ascii.eqb c "?" || Ascii.eqb c "#")%bool then EmptyString
      else String c (untilQuery s')
  end.

Fixpoint fromSlash (s : string) : string :=
  match s with
  | EmptyString => "/"
  | String c s' => if Ascii.eqb c "/" then s else fromSlash s'
  end.

Definition examplePathname (u : string) : string :=
  if String.prefix "https://" u
  then untilQuery (fromSlash (String.substring 8 (String.length u) u))
  else untilQuery u.

Definition examplePlatform : Platform :=
  {| idFromName := fun name => "id:" ++ name;
     pathname := examplePathname;
     stringify := fun v => default "" (toStringJson v);
     HTML_PAGE := "<!DOCTYPE html>";
     SYSTEM_PROMPT := "You are a friendly AI assistant." |}.

Definition failingEnv : Env :=
  {| AI_run := fun _ _ => AiThrows (ServiceError "model down");
     randomUUID := "00000000-0000-4000-8000-000000000001";
     nowISO := "2025-01-01T00:00:00.000Z" |}.

Definition emptyWorld : World := mkWorld ∅ [].

Definition workerUrl : string := "https://worker.example/api/chat".

Definition callA : AddCall :=
  mkAddCall failingEnv "https://task/alice/add" "A" None.

Definition callB : AddCall :=
  mkAddCall failingEnv "https://task/alice/add" "B" (Some "Friday").

(** From [w] to [w'] only the object [k] may have been written, and the
    storage accesses among the new events are all to [k]. *)
Definition touchesOnly (k : string) (w w' : World) : Prop :=
  (forall j, j <> k -> objects w' !! j = objects w !! j) /\
  exists evs,
    events w' = (events w ++ evs)%list /\
    Forall (fun e => forall j, eventObject e = Some j -> j = k) evs.

(** A computation that reads and writes no object but [k]. *)
Definition localTo {A} (k : string) (m : M A) : Prop :=
  forall w, touchesOnly k w (snd (m w)).

(** ** Further notions used in the statements *)

(** The keyword [kw] at the head of [message] is the alternative the
    regular expression of line 39 takes: "add task" and "create" always,
    "add" when the message does not go on with " task". *)
Definition keywordTaken (kw message : string) : Prop :=
  JS.toLowerCase kw = "add task" \/ JS.toLowerCase kw = "create" \/
  (JS.toLowerCase kw = "add" /\
   JS.startsWith (JS.toLowerCase message) "add task" = false).

(** The string is not empty and has no white space at its ends. *)
Definition isTrimmed (s : string) : Prop :=
  s <> "" /\ startsWhite s = false /\ endsWhite s = false.

(** Every task list of [w] is still there in [w'], as the beginning of
    the list of the same object. *)
Definition extendsTasks (w w' : World) : Prop :=
  forall k, exists added, tasksOf w' k = (tasksOf w k ++ added)%list.

(** Requests handled by the Worker one after the other, each with the
    environment it runs in. *)
Fixpoint runRequests (P : Platform) (calls : list (Env * Request)) (w : World) : World :=
  match calls with
  | [] => w
  | (env, request) :: rest => runRequests P rest (snd (fetch P env request w))
  end.

(** The line of the list reply for the task at index [idx] (line 126). *)
Definition listLine (idx : nat) (t : Task) : string :=
  natToString (idx + 1) ++ ". " ++ title t
  ++ match dueDate t with
     | Some (String c d) => " (due " ++ String c d ++ ")"
     | _ => ""
     end.

Fixpoint listLines (idx : nat) (tasks : list Task) : list string :=
  match tasks with
  | [] => []
  | t :: rest => listLine idx t :: listLines (S idx) rest
  end.

(** The reply of a list command for the stored tasks (lines 123-130). *)
Definition listText (tasks : list Task) : string :=
  match tasks with
  | [] => "You have no tasks."
  | _ => String.concat (String (ascii_of_nat 10) EmptyString) (listLines 0 tasks)
  end.

(** The confirmation of an add command (line 115). *)
Definition addedText (t : string) (d : option string) : string :=
  "Added task " ++ quote ++ t ++ quote
  ++ match d with
     | Some due => " due by " ++ due
     | None => ""
     end
  ++ ".".

(** The storage accesses and model calls one request may make. *)
Definition requestEvents (evs : list Event) : Prop :=
  evs = [] \/
  (exists k, evs = [StorageGet k "tasks"]) \/
  (exists k, evs = [StorageGet k "tasks"; StoragePut k "tasks"]) \/
  evs = [ModelRun model] \/
  evs = [ModelRun model; ConsoleError "AI model invocation failed"].

(** ** workflows/taskWorkflow.ts

    The function given to defineWorkflow, for an input { message, userId };
    its SYSTEM_PROMPT is the same text as the one of index.ts. *)
Definition TaskWorkflow (P : Platform) (env : Env) (message userId : string) : M json :=
  let messages := [("system", SYSTEM_PROMPT P); ("user", message)] in
  result <- aiRun env messages ;;
  reply <- extractReply P result ;;
  ret (JObj [("reply", reply)]).

(** The world after the storage read every request to the store starts
    with. *)
Definition afterRead (self : string) (w : World) : World :=
  mkWorld (objects w) (events w ++ [StorageGet self "tasks"])%list.

(** [v ? String(v) : undefined], when the conversion does not throw. *)
Definition textIfTruthy (v : jsval) : option (option string) :=
  if truthy v then option_map Some (toString v) else Some None.

(** The task the store makes of the JSON body of an add request, when
    its title and due date can be converted to strings. *)
Definition taskOfBody (env : Env) (v : json) : option Task :=
  match toString (getProp v "title"), textIfTruthy (getProp v "dueDate") with
  | Some t, Some d => Some (mkTask (randomUUID env) t d (nowISO env))
  | _, _ => None
  end.

(** The store answers [request] with status 201 and [task], and has put
    [task] at the end of the list of [self]. *)
Definition appendsTask (P : Platform) (self : string) (env : Env) (request : Request)
    (w : World) (task : Task) : Prop :=
  fst (TaskManager_fetch P self env request w)
  = Ret (mkResponse 201 jsonHeaders (BodyJson (taskToJson task))) /\
  tasksOf (snd (TaskManager_fetch P self env request w)) self
  = (tasksOf w self ++ [task])%list.

(** The store throws a TypeError on [request] and writes nothing. *)
Definition throwsTypeError (P : Platform) (self : string) (env : Env) (request : Request)
    (w : World) : Prop :=
  fst (TaskManager_fetch P self env request w) = Throw TypeError /\
  objects (snd (TaskManager_fetch P self env request w)) = objects w.

(** The world after the object [self] has stored [task]. *)
Definition afterAdd (self : string) (task : Task) (w : World) : World :=
  mkWorld (<[self := <["tasks" := (tasksOf w self ++ [task])%list]>
                       (default ∅ (objects w !! self))]> (objects w))
          ((events w ++ [StorageGet self "tasks"]) ++ [StoragePut self "tasks"])%list.

(** The world after a model call that gave a result. *)
Definition afterModel (w : World) : World :=
  mkWorld (objects w) (events w ++ [ModelRun model])%list.

(** The world after a model call that failed and was logged. *)
Definition afterModelFailure (w : World) : World :=
  mkWorld (objects w)
          ((events w ++ [ModelRun model]) ++ [ConsoleError "AI model invocation failed"])%list.

Definition badRequest : Response := mkResponse 400 textHeaders (BodyText "Bad Request").

(** The outer catch of the handler (lines 153-155). *)
Definition caught (r : Outcome Response * World) : Outcome Response * World :=
  match r with
  | (Ret response, w) => (Ret response, w)
  | (Throw _, w) => (Ret badRequest, w)
  end.

(** An environment whose model call returns [result]. *)
Definition answeringEnv (result : jsval) : Env :=
  {| AI_run := fun _ _ => AiReturns result;
     randomUUID := "00000000-0000-4000-8000-000000000002";
     nowISO := "2025-01-02T00:00:00.000Z" |}.

(** A model result in the chat-completion shape. *)
Definition completion (content : json) : json :=
  JObj [("choices", JArr [JObj [("message", JObj [("content", content)])]])].

(** [a] is null or undefined. *)
Definition isNullish (a : jsval) : bool :=
  match a with
  | None | Some JNull => true
  | _ => false
  end.

(** * Proofs *)

#[local] Arguments String.append !s1 s2 : simpl nomatch.

(** ** Facts about strings *)

Lemma app_nil_r (s : string) : s ++ "" = s.
Proof. induction s as [|c s IH]; simpl; [reflexivity | now rewrite IH]. Qed.

Lemma app_assoc (a b c : string) : (a ++ b) ++ c = a ++ b ++ c.
Proof. induction a as [|x a IH]; simpl; [reflexivity | now rewrite IH]. Qed.

Lemma length_app (a b : string) :
  String.length (a ++ b) = (String.length a + String.length b)%nat.
Proof. induction a as [|x a IH]; simpl; [reflexivity | now rewrite IH]. Qed.

Lemma app_inv_head (a b c : string) : a ++ b = a ++ c -> b = c.
Proof. induction a as [|x a IH]; simpl; intros H; [assumption | injection H; auto]. Qed.

Lemma app_eq_length (a b c d : string) :
  a ++ b = c ++ d -> String.length a = String.length c -> a = c /\ b = d.
Proof.
  revert c; induction a as [|x a IH]; intros [|y c]; simpl; intros H L; try discriminate.
  - auto.
  - injection H as -> H. injection L as L. destruct (IH _ H L) as [-> ->]. auto.
Qed.

Lemma toLowerCase_app (a b : string) :
  JS.toLowerCase (a ++ b) = JS.toLowerCase a ++ JS.toLowerCase b.
Proof. induction a as [|x a IH]; simpl; [reflexivity | now rewrite IH]. Qed.

Lemma toLowerCase_length (s : string) :
  String.length (JS.toLowerCase s) = String.length s.
Proof. induction s as [|c s IH]; simpl; [reflexivity | now rewrite IH]. Qed.

Lemma toLowerCase_split (s a b : string) :
  JS.toLowerCase s = a ++ b ->
  exists a' b', s = a' ++ b' /\ JS.toLowerCase a' = a /\ JS.toLowerCase b' = b.
Proof.
  revert s; induction a as [|x a IH]; intros s H.
  - exists "", s. auto.
  - destruct s as [|c s]; simpl in H; [discriminate|].
    injection H as Hc H. destruct (IH _ H) as (a' & b' & -> & <- & <-).
    exists (String c a'), b'. simpl. rewrite Hc. auto.
Qed.

Lemma prefix_app (p s : string) :
  String.prefix p s = true <-> exists t, s = p ++ t.
Proof.
  revert s; induction p as [|x p IH]; intros s.
  - destruct s; simpl; split; eauto.
  - destruct s as [|c s]; simpl.
    + split; [discriminate | intros [t H]; discriminate].
    + destruct (ascii_dec x c) as [->|Hne].
      * rewrite IH. split; intros [t H]; exists t; [now rewrite H | now injection H].
      * split; [discriminate | intros [t H]; injection H; intros; congruence].
Qed.


(** *** trimStart, trimEnd, trim *)

Lemma trimStart_split (s : string) :
  exists ws, s = ws ++ JS.trimStart s /\ allWhite ws = true.
Proof.
  induction s as [|c s (ws & IH & W)]; simpl.
  - exists "". auto.
  - destruct (JS.isWhiteSpace c) eqn:E.
    + exists (String c ws). simpl. rewrite E, W, <- IH. auto.
    + exists "". auto.
Qed.

Lemma trimStart_startsWhite (s : string) : startsWhite (JS.trimStart s) = false.
Proof.
  induction s as [|c s IH]; simpl; [reflexivity|].
  destruct (JS.isWhiteSpace c) eqn:E; [assumption | simpl; assumption].
Qed.

Lemma trimStart_id (s : string) : startsWhite s = false -> JS.trimStart s = s.
Proof. destruct s as [|c s]; simpl; [reflexivity | now intros ->]. Qed.

Lemma trimEnd_cons (c : ascii) (s : string) :
  JS.trimEnd (String c s) =
  match JS.trimEnd s with
  | EmptyString => if JS.isWhiteSpace c then EmptyString else String c EmptyString
  | t => String c t
  end.
Proof. reflexivity. Qed.

Lemma trimEnd_split (s : string) :
  exists ws, s = JS.trimEnd s ++ ws /\ allWhite ws = true.
Proof.
  induction s as [|c s (ws & IH & W)].
  - exists "". auto.
  - rewrite trimEnd_cons. destruct (JS.trimEnd s) as [|d t] eqn:T.
    + simpl in IH. subst ws. destruct (JS.isWhiteSpace c) eqn:E.
      * exists (String c s). simpl. rewrite E, W. auto.
      * exists s. auto.
    + exists ws. split; [|exact W].
      change (String c s = String c (String d t ++ ws)). now f_equal.
Qed.

Lemma trimEnd_endsWhite (s : string) : endsWhite (JS.trimEnd s) = false.
Proof.
  induction s as [|c s IH]; [reflexivity|].
  rewrite trimEnd_cons. destruct (JS.trimEnd s) as [|d t] eqn:T.
  - destruct (JS.isWhiteSpace c) eqn:E; simpl; [reflexivity | assumption].
  - exact IH.
Qed.

Lemma trimEnd_id (s : string) : endsWhite s = false -> JS.trimEnd s = s.
Proof.
  induction s as [|c s IH]; [reflexivity|].
  intros H. rewrite trimEnd_cons. destruct s as [|d s].
  - simpl in *. now rewrite H.
  - rewrite IH by exact H. reflexivity.
Qed.

Lemma trimEnd_head (c : ascii) (s : string) :
  JS.isWhiteSpace c = false -> exists t, JS.trimEnd (String c s) = String c t.
Proof.
  intros E. rewrite trimEnd_cons. destruct (JS.trimEnd s) as [|d t].
  - rewrite E. eauto.
  - eauto.
Qed.

Lemma trimEnd_startsWhite (s : string) :
  startsWhite s = false -> startsWhite (JS.trimEnd s) = false.
Proof.
  destruct s as [|c s]; [reflexivity|]. intros E. simpl in E.
  destruct (trimEnd_head c s E) as [t ->]. exact E.
Qed.

Lemma trim_startsWhite (s : string) : startsWhite (JS.trim s) = false.
Proof. apply trimEnd_startsWhite, trimStart_startsWhite. Qed.

Lemma trim_endsWhite (s : string) : endsWhite (JS.trim s) = false.
Proof. apply trimEnd_endsWhite. Qed.

Lemma trim_id (s : string) :
  startsWhite s = false -> endsWhite s = false -> JS.trim s = s.
Proof. intros H1 H2. unfold JS.trim. now rewrite trimStart_id, trimEnd_id. Qed.

Lemma trim_trim (s : string) : JS.trim (JS.trim s) = JS.trim s.
Proof. apply trim_id; [apply trim_startsWhite | apply trim_endsWhite]. Qed.

Lemma trim_head_nonempty (c : ascii) (s : string) :
  JS.isWhiteSpace c = false -> JS.trim (String c s) <> "".
Proof.
  intros E. unfold JS.trim. simpl JS.trimStart. rewrite E.
  destruct (trimEnd_head c s E) as [t ->]. discriminate.
Qed.

Lemma endsWhite_app (a b : string) : b <> "" -> endsWhite (a ++ b) = endsWhite b.
Proof.
  intros Hb. induction a as [|c a IH]; [reflexivity|].
  simpl. destruct (a ++ b) eqn:E; [|exact IH].
  destruct a; simpl in E; [congruence | discriminate].
Qed.

Lemma endsWhite_allWhite (s : string) : allWhite s = true -> s <> "" -> endsWhite s = true.
Proof.
  induction s as [|c s IH]; [congruence|]. simpl. intros W _.
  apply andb_true_iff in W as [Hc W]. destruct s; [exact Hc | apply IH; [exact W | discriminate]].
Qed.


(** *** The keyword match of the regular expression *)

Lemma Canonicalize_lowerChar (l c : ascii) :
  plainChar l = true ->
  (JS.Canonicalize l =? JS.Canonicalize c)%N = Ascii.eqb (JS.lowerChar c) l.
Proof.
  intros H.
  destruct l as [[] [] [] [] [] [] [] []]; try discriminate H; clear H;
    destruct c as [[] [] [] [] [] [] [] []]; reflexivity.
Qed.

Lemma lowerChar_space (c : ascii) :
  JS.lowerChar c = " "%char -> c = " "%char.
Proof. destruct c as [[] [] [] [] [] [] [] []]; vm_compute; congruence. Qed.

Lemma matchLiteral_Some (lit s r : string) :
  allPlain lit = true ->
  JS.matchLiteral lit s = Some r <->
  exists k, s = k ++ r /\ JS.toLowerCase k = lit.
Proof.
  revert s; induction lit as [|l lit IH]; intros s P.
  - simpl. split.
    + intros [= ->]. exists "". auto.
    + intros (k & -> & L). destruct k; [reflexivity | discriminate].
  - simpl in P. apply andb_true_iff in P as [Pl P].
    destruct s as [|c s]; simpl.
    + split; [discriminate|]. intros (k & E & L).
      destruct k; [discriminate L | discriminate E].
    + rewrite (Canonicalize_lowerChar l c Pl).
      destruct (Ascii.eqb_spec (JS.lowerChar c) l) as [Hc|Hc].
      * rewrite (IH s P). split.
        -- intros (k & -> & L). exists (String c k). simpl. now rewrite Hc, L.
        -- intros (k & E & L). destruct k as [|d k]; [discriminate L|].
           simpl in E, L. injection E as -> ->. injection L as _ L. eauto.
      * split; [discriminate|]. intros (k & E & L).
        destruct k as [|d k]; [discriminate L|].
        simpl in E, L. injection E as -> ->. injection L as L _. contradiction.
Qed.

Lemma matchSpaces1_Some (s r : string) :
  JS.matchSpaces1 s = Some r ->
  exists ws, s = ws ++ r /\ ws <> "" /\ allWhite ws = true /\ startsWhite r = false.
Proof.
  destruct s as [|c s]; simpl; [discriminate|].
  destruct (JS.isWhiteSpace c) eqn:E; [|discriminate].
  intros [= <-]. destruct (trimStart_split s) as (ws & Hs & W).
  exists (String c ws). simpl. rewrite E, W, <- Hs.
  repeat split; [discriminate | apply trimStart_startsWhite].
Qed.

Lemma matchKeyword_Some (alts : list string) (s r : string) :
  Forall (fun lit => allPlain lit = true) alts ->
  JS.matchKeyword alts s = Some r ->
  exists kw ws,
    s = kw ++ ws ++ r /\ In (JS.toLowerCase kw) alts /\
    ws <> "" /\ allWhite ws = true /\ startsWhite r = false.
Proof.
  induction 1 as [|lit alts Hlit _ IH]; simpl; [discriminate|].
  assert (Hnext : JS.matchKeyword alts s = Some r ->
                  exists kw ws, s = kw ++ ws ++ r /\
                    (lit = JS.toLowerCase kw \/ In (JS.toLowerCase kw) alts) /\
                    ws <> "" /\ allWhite ws = true /\ startsWhite r = false).
  { intros H. destruct (IH H) as (kw & ws & ? & ? & ?). exists kw, ws. auto. }
  destruct (JS.matchLiteral lit s) as [r1|] eqn:L; [|exact Hnext].
  destruct (JS.matchSpaces1 r1) as [r2|] eqn:Sp; [|exact Hnext].
  intros [= ->]. apply matchLiteral_Some in L as (kw & -> & Hk); [|exact Hlit].
  apply matchSpaces1_Some in Sp as (ws & -> & ? & ? & ?).
  exists kw, ws. auto.
Qed.

Lemma matchKeyword_complete (alts : list string) (lit s : string) :
  Forall (fun lit => allPlain lit = true) alts ->
  In lit alts ->
  String.prefix (lit ++ " ") (JS.toLowerCase s) = true ->
  JS.matchKeyword alts s <> None.
Proof.
  intros Hall Hin Hpre. induction Hall as [|a alts Ha _ IH]; [contradiction|].
  simpl. destruct Hin as [->|Hin].
  - apply prefix_app in Hpre as [t Ht].
    apply toLowerCase_split in Ht as (k' & t' & -> & Hk & _).
    apply toLowerCase_split in Hk as (k & b & -> & Hk & Hb).
    assert (L : JS.matchLiteral lit ((k ++ b) ++ t') = Some (b ++ t')).
    { apply matchLiteral_Some; [exact Ha|]. exists k. now rewrite app_assoc. }
    rewrite L. destruct b as [|c b]; [discriminate Hb|].
    simpl in Hb. injection Hb as Hc _. apply lowerChar_space in Hc as ->.
    simpl. discriminate.
  - destruct (JS.matchLiteral a s) as [r1|]; [|auto].
    destruct (JS.matchSpaces1 r1); [discriminate | auto].
Qed.

Lemma isAddCommand_prefix (lower : string) :
  isAddCommand lower = true ->
  exists lit, In lit ["add task"; "add"; "create"] /\
              String.prefix (lit ++ " ") lower = true.
Proof.
  unfold isAddCommand, JS.startsWith. intros H.
  apply orb_true_iff in H as [H|H]; [apply orb_true_iff in H as [H|H]|].
  - exists "add". simpl. auto.
  - exists "add task". simpl. auto.
  - exists "create". simpl. auto.
Qed.

Lemma keywords_plain :
  Forall (fun lit => allPlain lit = true) ["add task"; "add"; "create"].
Proof. repeat constructor. Qed.

(** The remainder of a trimmed add command: keyword, white space, and a
    remainder that is not empty and has no white space at either end. *)
Lemma removeKeyword_shape (t : string) :
  startsWhite t = false -> endsWhite t = false ->
  isAddCommand (JS.toLowerCase t) = true ->
  exists kw ws,
    t = kw ++ ws ++ removeKeyword t /\ isKeyword kw /\
    ws <> "" /\ allWhite ws = true /\
    removeKeyword t <> "" /\
    startsWhite (removeKeyword t) = false /\ endsWhite (removeKeyword t) = false.
Proof.
  intros Hs He Hadd. unfold removeKeyword. rewrite (trimStart_id t Hs).
  apply isAddCommand_prefix in Hadd as (lit & Hin & Hpre).
  pose proof (matchKeyword_complete _ lit t keywords_plain Hin Hpre) as Hsome.
  destruct (JS.matchKeyword ["add task"; "add"; "create"] t) as [r|] eqn:K; [|congruence].
  apply matchKeyword_Some in K as (kw & ws & Ht & Hkw & Hws & W & Hr); [|exact keywords_plain].
  assert (Hne : r <> "").
  { intros ->. rewrite app_nil_r in Ht. subst t.
    rewrite endsWhite_app in He by exact Hws.
    rewrite endsWhite_allWhite in He by assumption. discriminate. }
  exists kw, ws. repeat split; try assumption.
  subst t. rewrite endsWhite_app in He.
  - rewrite endsWhite_app in He by exact Hne. exact He.
  - destruct ws; [congruence | discriminate].
Qed.


(** *** lastIndexOf *)

Lemma occursAt_nil (p : string) (k : nat) :
  occursAt p "" k -> p = "" /\ k = 0%nat.
Proof.
  intros (pre & post & E & L). destruct pre; [|discriminate E].
  destruct p; [auto | discriminate E].
Qed.

Lemma occursAt_cons (p : string) (c : ascii) (s : string) (k : nat) :
  occursAt p s k -> occursAt p (String c s) (S k).
Proof.
  intros (pre & post & -> & <-). exists (String c pre), post. auto.
Qed.

Lemma occursAt_0 (p s : string) :
  occursAt p s 0 <-> String.prefix p s = true.
Proof.
  rewrite prefix_app. split.
  - intros (pre & post & -> & L). destruct pre; [|discriminate L]. eauto.
  - intros [t ->]. exists "", t. auto.
Qed.

Lemma occursAt_S (p : string) (c : ascii) (s : string) (k : nat) :
  occursAt p (String c s) (S k) -> occursAt p s k.
Proof.
  intros (pre & post & E & L). destruct pre as [|d pre]; [discriminate L|].
  simpl in E, L. injection E as _ ->. injection L as <-. exists pre, post. auto.
Qed.

Lemma lastIndexOfFrom_sound (i : Z) (s p : string) :
  (0 <= i)%Z -> (0 <= JS.lastIndexOfFrom i s p)%Z ->
  (i <= JS.lastIndexOfFrom i s p)%Z /\
  occursAt p s (Z.to_nat (JS.lastIndexOfFrom i s p - i)).
Proof.
  revert i; induction s as [|c s IH]; intros i Hi; cbn [JS.lastIndexOfFrom].
  - destruct (String.prefix p "") eqn:E; [|lia].
    intros _. split; [lia|]. replace (i - i)%Z with 0%Z by lia.
    now apply occursAt_0.
  - destruct (0 <=? JS.lastIndexOfFrom (i + 1) s p)%Z eqn:R.
    + intros _. apply Z.leb_le in R. destruct (IH (i + 1)%Z) as [Hle Hocc]; [lia | lia |].
      split; [lia|].
      replace (Z.to_nat (JS.lastIndexOfFrom (i + 1) s p - i))
        with (S (Z.to_nat (JS.lastIndexOfFrom (i + 1) s p - (i + 1)))) by lia.
      now apply occursAt_cons.
    + destruct (String.prefix p (String c s)) eqn:E; [|lia].
      intros _. split; [lia|]. replace (i - i)%Z with 0%Z by lia.
      now apply occursAt_0.
Qed.

Lemma lastIndexOfFrom_max (i : Z) (s p : string) (k : nat) :
  (0 <= i)%Z -> occursAt p s k ->
  (i + Z.of_nat k <= JS.lastIndexOfFrom i s p)%Z.
Proof.
  revert i k; induction s as [|c s IH]; intros i k Hi Hocc; cbn [JS.lastIndexOfFrom].
  - apply occursAt_nil in Hocc as [-> ->]. simpl. lia.
  - destruct k as [|k].
    + apply occursAt_0 in Hocc. rewrite Hocc.
      destruct (0 <=? JS.lastIndexOfFrom (i + 1) s p)%Z eqn:R; [|lia].
      apply Z.leb_le in R.
      destruct (lastIndexOfFrom_sound (i + 1) s p) as [Hle _]; lia.
    + apply occursAt_S in Hocc. specialize (IH (i + 1)%Z k ltac:(lia) Hocc).
      destruct (0 <=? JS.lastIndexOfFrom (i + 1) s p)%Z eqn:R; [lia|].
      apply Z.leb_gt in R. lia.
Qed.

Lemma lastIndexOf_sound (s p : string) :
  (0 <= JS.lastIndexOf s p)%Z -> occursAt p s (Z.to_nat (JS.lastIndexOf s p)).
Proof.
  intros H. destruct (lastIndexOfFrom_sound 0 s p) as [_ Hocc]; [lia | exact H |].
  unfold JS.lastIndexOf. now rewrite Z.sub_0_r in Hocc.
Qed.

Lemma lastIndexOf_max (s p : string) (k : nat) :
  occursAt p s k -> (Z.of_nat k <= JS.lastIndexOf s p)%Z.
Proof. intros H. apply (lastIndexOfFrom_max 0 s p k) in H; [exact H | lia]. Qed.

(** The split index is the largest index that holds a date keyword, and
    negative when there is none. *)
Lemma splitIndex_sound (r : string) :
  (0 <= splitIndex r)%Z -> dateKeywordAt r (Z.to_nat (splitIndex r)).
Proof.
  unfold splitIndex, dateKeywordAt. intros H.
  destruct (Z.max_spec (JS.lastIndexOf (JS.toLowerCase r) " by ")
                       (JS.lastIndexOf (JS.toLowerCase r) " on ")) as [[_ E]|[_ E]];
    rewrite E in *; [right | left]; now apply lastIndexOf_sound.
Qed.

Lemma splitIndex_max (r : string) (k : nat) :
  dateKeywordAt r k -> (Z.of_nat k <= splitIndex r)%Z.
Proof.
  unfold splitIndex, dateKeywordAt. intros [H|H]; apply lastIndexOf_max in H; lia.
Qed.

Lemma dateKeywordAt_split (r : string) (k : nat) :
  dateKeywordAt r k <->
  exists pre sep post,
    r = pre ++ sep ++ post /\ isDateKeyword sep /\ String.length pre = k.
Proof.
  unfold dateKeywordAt, occursAt, isDateKeyword. split.
  - intros [(a & b & E & L)|(a & b & E & L)];
      apply toLowerCase_split in E as (pre & rest & -> & <- & E);
      apply toLowerCase_split in E as (sep & post & -> & Hsep & _);
      exists pre, sep, post; rewrite toLowerCase_length in L; auto.
  - intros (pre & sep & post & -> & [H|H] & <-); [left | right];
      exists (JS.toLowerCase pre), (JS.toLowerCase post);
      now rewrite !toLowerCase_app, H, toLowerCase_length.
Qed.

(** *** substring *)

Lemma substring_0_app (a b : string) :
  String.substring 0 (String.length a) (a ++ b) = a.
Proof.
  induction a as [|c a IH]; simpl.
  - destruct b; reflexivity.
  - now rewrite IH.
Qed.

Lemma substring_skip_app (a b : string) (n : nat) :
  String.substring (String.length a) n (a ++ b) = String.substring 0 n b.
Proof. induction a as [|c a IH]; simpl; [reflexivity | exact IH]. Qed.

Lemma substring_0_all (b : string) : String.substring 0 (String.length b) b = b.
Proof. rewrite <- (app_nil_r b) at 2. apply substring_0_app. Qed.

Lemma JS_substring_head (a b : string) :
  JS.substring (a ++ b) 0 (Z.of_nat (String.length a)) = a.
Proof.
  unfold JS.substring, JS.clampIndex. rewrite length_app.
  replace (Z.to_nat (Z.min (Z.max 0 0) _)) with 0%nat by lia.
  replace (Z.to_nat (Z.min (Z.max (Z.of_nat (String.length a)) 0) _))
    with (String.length a) by lia.
  rewrite Nat.min_0_l, Nat.max_0_l, Nat.sub_0_r. apply substring_0_app.
Qed.

Lemma JS_substringFrom_tail (a b : string) :
  JS.substringFrom (a ++ b) (Z.of_nat (String.length a)) = b.
Proof.
  unfold JS.substringFrom, JS.substring, JS.clampIndex. rewrite length_app.
  replace (Z.to_nat (Z.min (Z.max (Z.of_nat (String.length a)) 0) _))
    with (String.length a) by lia.
  replace (Z.to_nat (Z.min (Z.max (Z.of_nat (String.length a + String.length b)) 0) _))
    with (String.length a + String.length b)%nat by lia.
  rewrite Nat.min_l, Nat.max_r by lia.
  replace (String.length a + String.length b - String.length a)%nat
    with (String.length b) by lia.
  rewrite substring_skip_app. apply substring_0_all.
Qed.


(** *** The add branch *)

Lemma splitDueDate_eq (r : string) :
  splitDueDate r =
  if (0 <=? splitIndex r)%Z
  then (Some (JS.trim (JS.substringFrom r (splitIndex r + 4))),
        JS.trim (JS.substring r 0 (splitIndex r)))
  else (None, r).
Proof.
  unfold splitDueDate, splitIndex.
  destruct (JS.lastIndexOf (JS.toLowerCase r) " on " <? JS.lastIndexOf (JS.toLowerCase r) " by ")%Z;
    reflexivity.
Qed.

Lemma isDateKeyword_shape (sep : string) :
  isDateKeyword sep ->
  String.length sep = 4%nat /\ startsWhite sep = true /\ endsWhite sep = true.
Proof.
  intros [H|H];
    destruct sep as [|c1 [|c2 [|c3 [|c4 [|c5 sep]]]]]; try discriminate H;
    simpl in H; injection H as H1 _ _ H4;
    apply lowerChar_space in H1 as ->; apply lowerChar_space in H4 as ->; auto.
Qed.

Lemma splitDueDate_found (r pre sep post : string) :
  r = pre ++ sep ++ post -> isDateKeyword sep ->
  Z.of_nat (String.length pre) = splitIndex r ->
  splitDueDate r = (Some (JS.trim post), JS.trim pre).
Proof.
  intros Hr Hsep Hidx. destruct (isDateKeyword_shape sep Hsep) as (L4 & _ & _).
  rewrite splitDueDate_eq, <- Hidx.
  replace (0 <=? Z.of_nat (String.length pre))%Z with true by (symmetry; apply Z.leb_le; lia).
  replace (Z.of_nat (String.length pre) + 4)%Z
    with (Z.of_nat (String.length (pre ++ sep))) by (rewrite length_app; lia).
  rewrite Hr at 2. rewrite JS_substring_head.
  rewrite Hr, <- app_assoc, JS_substringFrom_tail. reflexivity.
Qed.

Lemma splitDueDate_none (r : string) :
  (splitIndex r < 0)%Z -> splitDueDate r = (None, r).
Proof.
  intros H. rewrite splitDueDate_eq.
  now replace (0 <=? splitIndex r)%Z with false by (symmetry; apply Z.leb_gt; lia).
Qed.

Lemma length_eqb_0 (s : string) : s <> "" -> (String.length s =? 0)%nat = false.
Proof. destruct s; [congruence | reflexivity]. Qed.

Lemma trim_nonempty (s : string) : s <> "" -> endsWhite s = false -> JS.trim s <> "".
Proof.
  intros Hne He. unfold JS.trim.
  destruct (trimStart_split s) as (ws & Hs & W).
  pose proof (trimStart_startsWhite s) as Hh.
  destruct (JS.trimStart s) as [|c u].
  - rewrite app_nil_r in Hs. subst ws. rewrite endsWhite_allWhite in He; congruence.
  - simpl in Hh. destruct (trimEnd_head c u Hh) as [t ->]. discriminate.
Qed.

Lemma orUndefined_Some (d : string) : d <> "" -> orUndefined (Some d) = Some d.
Proof. destruct d; [congruence | reflexivity]. Qed.

(** What [parseAdd] returns for a trimmed add command: without a date
    keyword the whole remainder is the title; with one, the remainder is
    split at the last one, and neither side is blank. *)
Lemma parseAdd_shape (t : string) :
  startsWhite t = false -> endsWhite t = false ->
  isAddCommand (JS.toLowerCase t) = true ->
  ((splitIndex (removeKeyword t) < 0)%Z /\
   parseAdd t = CmdAdd (removeKeyword t) None) \/
  (exists pre sep post,
     removeKeyword t = pre ++ sep ++ post /\ isDateKeyword sep /\
     Z.of_nat (String.length pre) = splitIndex (removeKeyword t) /\
     startsWhite pre = false /\ pre <> "" /\
     endsWhite post = false /\ post <> "" /\
     parseAdd t = CmdAdd (JS.trim pre) (Some (JS.trim post))).
Proof.
  intros Hs He Hadd.
  destruct (removeKeyword_shape t Hs He Hadd) as (kw & ws & _ & _ & _ & _ & Hne & Hrs & Hre).
  unfold parseAdd. set (r := removeKeyword t) in *.
  destruct (Z.lt_ge_cases (splitIndex r) 0) as [Hneg|Hpos].
  - left. split; [exact Hneg|].
    rewrite (splitDueDate_none r Hneg), (trim_id r Hrs Hre), (length_eqb_0 r Hne).
    reflexivity.
  - right. pose proof (splitIndex_sound r Hpos) as Hk.
    apply dateKeywordAt_split in Hk as (pre & sep & post & Hr & Hsep & Hlen).
    assert (Hidx : Z.of_nat (String.length pre) = splitIndex r) by lia.
    destruct (isDateKeyword_shape sep Hsep) as (L4 & Hss & Hse).
    assert (Hsepne : sep <> "") by (intros ->; discriminate L4).
    assert (Hpre : pre <> "").
    { intros ->. rewrite Hr in Hrs. destruct sep; [congruence|].
      simpl in Hrs, Hss. congruence. }
    assert (Hpres : startsWhite pre = false).
    { rewrite Hr in Hrs. destruct pre; [congruence | exact Hrs]. }
    assert (Hpost : post <> "").
    { intros ->. rewrite Hr, app_nil_r in Hre.
      rewrite endsWhite_app in Hre by exact Hsepne. congruence. }
    assert (Hposte : endsWhite post = false).
    { rewrite Hr, <- app_assoc in Hre. now rewrite endsWhite_app in Hre. }
    exists pre, sep, post. repeat split; try assumption.
    rewrite (splitDueDate_found r pre sep post Hr Hsep Hidx), trim_trim.
    assert (Htitle : JS.trim pre <> "").
    { destruct pre as [|c pre]; [congruence|]. now apply trim_head_nonempty. }
    rewrite (length_eqb_0 _ Htitle), orUndefined_Some; [reflexivity|].
    now apply trim_nonempty.
Qed.

Lemma isAddCommand_not_list (lower : string) :
  isAddCommand lower = true -> isListCommand lower = false.
Proof.
  intros H. apply isAddCommand_prefix in H as (lit & Hin & Hpre).
  apply prefix_app in Hpre as [t ->].
  destruct Hin as [<-|[<-|[<-|[]]]]; reflexivity.
Qed.

Lemma parseCommand_add (m : string) :
  isAddCommand (JS.toLowerCase (JS.trim m)) = true ->
  parseCommand m = parseAdd (JS.trim m).
Proof.
  intros H. unfold parseCommand. now rewrite (isAddCommand_not_list _ H), H.
Qed.


Lemma endsWhite_trimStart (s : string) :
  endsWhite s = false -> endsWhite (JS.trimStart s) = false.
Proof.
  intros H. destruct (trimStart_split s) as (ws & Hs & _).
  destruct (JS.trimStart s) as [|c u] eqn:E; [reflexivity|].
  rewrite Hs in H. now rewrite endsWhite_app in H.
Qed.

Lemma parseCommand_CmdAdd (m title : string) (dueDate : option string) :
  parseCommand m = CmdAdd title dueDate ->
  isAddCommand (JS.toLowerCase (JS.trim m)) = true /\
  parseAdd (JS.trim m) = CmdAdd title dueDate.
Proof.
  unfold parseCommand.
  destruct (isListCommand _); [discriminate|].
  destruct (isAddCommand _); [auto | discriminate].
Qed.

(** ** The claims about parseCommand *)

(** C5: in an add command the due date is split off at the last " by " or
    " on " of the remainder (found in its lower-cased copy): whichever of
    the two comes later is the split point, the text after it, trimmed, is
    the dueDate and the text before it, trimmed, is the title; without
    either the command has no dueDate. *)
Theorem parse_due_date_split (m : string) :
  isAddCommand (JS.toLowerCase (JS.trim m)) = true ->
  let remainder := removeKeyword (JS.trim m) in
  (forall pre sep post,
      remainder = pre ++ sep ++ post -> isDateKeyword sep ->
      (forall j, (String.length pre < j)%nat -> ~ dateKeywordAt remainder j) ->
      parseCommand m = CmdAdd (JS.trim pre) (Some (JS.trim post))) /\
  ((forall j, ~ dateKeywordAt remainder j) ->
   parseCommand m = CmdAdd (JS.trim remainder) None) /\
  parseCommand "add buy groceries by Friday" = CmdAdd "buy groceries" (Some "Friday").
Proof.
  intros Hadd remainder. rewrite (parseCommand_add m Hadd).
  pose proof (parseAdd_shape (JS.trim m) (trim_startsWhite m) (trim_endsWhite m) Hadd) as Hshape.
  fold remainder in Hshape. split; [|split; [|reflexivity]].
  - intros pre sep post Hr Hsep Hlast.
    assert (Hat : dateKeywordAt remainder (String.length pre)).
    { apply dateKeywordAt_split. exists pre, sep, post. auto. }
    pose proof (splitIndex_max _ _ Hat) as Hmax.
    destruct Hshape as [[Hneg _]|(pre' & sep' & post' & Hr' & Hsep' & Hidx & _ & _ & _ & _ & ->)];
      [lia|].
    assert (Hlen : String.length pre' = String.length pre).
    { destruct (Nat.lt_trichotomy (String.length pre) (String.length pre')) as [Hlt|[Heq|Hgt]];
        [|auto|lia].
      exfalso. apply (Hlast _ Hlt). apply dateKeywordAt_split. exists pre', sep', post'. auto. }
    rewrite Hr in Hr'. symmetry in Hr'.
    destruct (app_eq_length _ _ _ _ Hr' Hlen) as [-> Hrest].
    destruct (isDateKeyword_shape sep Hsep) as (L & _ & _).
    destruct (isDateKeyword_shape sep' Hsep') as (L' & _ & _).
    destruct (app_eq_length _ _ _ _ Hrest ltac:(congruence)) as [_ ->]. reflexivity.
  - intros Hnone. destruct Hshape as [[_ ->]|(pre & sep & post & Hr & Hsep & _)].
    + destruct (removeKeyword_shape _ (trim_startsWhite m) (trim_endsWhite m) Hadd)
        as (_ & _ & _ & _ & _ & _ & _ & Hs & He).
      fold remainder in Hs, He. now rewrite (trim_id _ Hs He).
    + exfalso. apply (Hnone (String.length pre)), dateKeywordAt_split.
      exists pre, sep, post. auto.
Qed.

(** For a message of code units U+0000..U+00FF, where the lower-cased
    copy has the length of the text, an add command has the shape one
    expects: the message is white space, the keyword (in any casing),
    white space, the title, and then either nothing or white space,
    " by " or " on " (in any casing), white space and the dueDate, and
    trailing white space. *)
Theorem parse_keeps_original_casing (m title : string) (dueDate : option string) :
  parseCommand m = CmdAdd title dueDate ->
  exists lead kw ws trail,
    allWhite lead = true /\ allWhite trail = true /\
    isKeyword kw /\ ws <> "" /\ allWhite ws = true /\
    ((dueDate = None /\ m = lead ++ kw ++ ws ++ title ++ trail) \/
     (exists ws2 sep ws3 due,
        dueDate = Some due /\ isDateKeyword sep /\
        allWhite ws2 = true /\ allWhite ws3 = true /\
        m = lead ++ kw ++ ws ++ title ++ ws2 ++ sep ++ ws3 ++ due ++ trail)).
Proof.
  intros H. apply parseCommand_CmdAdd in H as [Hadd H].
  destruct (trimStart_split m) as (lead & Hm & Wl).
  destruct (trimEnd_split (JS.trimStart m)) as (trail & Ht & Wt).
  fold (JS.trim m) in Ht.
  destruct (removeKeyword_shape _ (trim_startsWhite m) (trim_endsWhite m) Hadd)
    as (kw & ws & Hk & Hkw & Hws & Ww & _).
  exists lead, kw, ws, trail. repeat split; try assumption.
  destruct (parseAdd_shape _ (trim_startsWhite m) (trim_endsWhite m) Hadd)
    as [[_ Hp]|(pre & sep & post & Hr & Hsep & _ & Hps & _ & Hpe & _ & Hp)];
    rewrite Hp in H; injection H as <- <-.
  - left. split; [reflexivity|].
    rewrite Hm at 1. rewrite Ht, Hk at 1. now rewrite !app_assoc.
  - right. destruct (trimEnd_split pre) as (ws2 & Hpre & W2).
    destruct (trimStart_split post) as (ws3 & Hpost & W3).
    exists ws2, sep, ws3, (JS.trim post). repeat split; try assumption.
    unfold JS.trim at 1. rewrite (trimStart_id pre Hps).
    unfold JS.trim at 1. rewrite (trimEnd_id (JS.trimStart post)) by now apply endsWhite_trimStart.
    rewrite Hm at 1. rewrite Ht, Hk, Hr at 1. rewrite Hpre, Hpost at 1.
    now rewrite !app_assoc.
Qed.

(** *** The two embeddings agree on Latin-1 *)

Lemma units_app (a b : string) :
  Wide.units (a ++ b) = (Wide.units a ++ Wide.units b)%list.
Proof. induction a as [|c a IH]; simpl; [reflexivity | now rewrite IH]. Qed.

Lemma units_length (s : string) : length (Wide.units s) = String.length s.
Proof. induction s as [|c s IH]; simpl; [reflexivity | now rewrite IH]. Qed.

Lemma codeUnit_eqb (c d : ascii) :
  (JS.codeUnit c =? JS.codeUnit d)%N = Ascii.eqb c d.
Proof.
  unfold JS.codeUnit. destruct (Ascii.eqb_spec c d) as [->|Hne].
  - apply N.eqb_refl.
  - apply N.eqb_neq. intros E. apply Hne.
    now rewrite <- (ascii_N_embedding c), <- (ascii_N_embedding d), E.
Qed.

Lemma wide_isWhiteSpace (c : ascii) :
  Wide.isWhiteSpace (JS.codeUnit c) = JS.isWhiteSpace c.
Proof. destruct c as [[] [] [] [] [] [] [] []]; reflexivity. Qed.

Lemma wide_lowerUnit (c : ascii) :
  Wide.lowerUnit (JS.codeUnit c) = [JS.codeUnit (JS.lowerChar c)].
Proof. destruct c as [[] [] [] [] [] [] [] []]; reflexivity. Qed.

Lemma wide_toLowerCase (s : string) :
  Wide.toLowerCase (Wide.units s) = Wide.units (JS.toLowerCase s).
Proof.
  induction s as [|c s IH]; [reflexivity|].
  simpl. unfold Wide.toLowerCase in *. simpl. now rewrite wide_lowerUnit, IH.
Qed.

Lemma wide_trimStart (s : string) :
  Wide.trimStart (Wide.units s) = Wide.units (JS.trimStart s).
Proof.
  induction s as [|c s IH]; [reflexivity|].
  simpl. rewrite wide_isWhiteSpace. destruct (JS.isWhiteSpace c); [exact IH | reflexivity].
Qed.

Lemma wide_trimEnd (s : string) :
  Wide.trimEnd (Wide.units s) = Wide.units (JS.trimEnd s).
Proof.
  induction s as [|c s IH]; [reflexivity|].
  simpl. rewrite IH, wide_isWhiteSpace.
  destruct (JS.trimEnd s); [destruct (JS.isWhiteSpace c)|]; reflexivity.
Qed.

Lemma wide_trim (s : string) : Wide.trim (Wide.units s) = Wide.units (JS.trim s).
Proof. unfold Wide.trim, JS.trim. now rewrite wide_trimStart, wide_trimEnd. Qed.

Lemma wide_eqb (s p : string) : Wide.eqb (Wide.units s) (Wide.units p) = String.eqb s p.
Proof.
  revert p; induction s as [|c s IH]; intros [|d p]; simpl; try reflexivity.
  rewrite codeUnit_eqb, IH. destruct (Ascii.eqb c d); reflexivity.
Qed.

Lemma wide_prefix (p s : string) :
  Wide.prefix (Wide.units p) (Wide.units s) = String.prefix p s.
Proof.
  revert s; induction p as [|d p IH]; intros [|c s]; simpl; try reflexivity.
  rewrite codeUnit_eqb, IH.
  destruct (ascii_dec d c) as [->|Hne].
  - now rewrite Ascii.eqb_refl.
  - apply Ascii.eqb_neq in Hne. now rewrite Hne.
Qed.

Lemma wide_lastIndexOfFrom (i : Z) (s p : string) :
  Wide.lastIndexOfFrom i (Wide.units s) (Wide.units p) = JS.lastIndexOfFrom i s p.
Proof.
  revert i; induction s as [|c s IH]; intros i.
  - cbn [Wide.units Wide.lastIndexOfFrom JS.lastIndexOfFrom].
    change (Wide.prefix (Wide.units p) [])
      with (Wide.prefix (Wide.units p) (Wide.units "")).
    now rewrite wide_prefix.
  - cbn [Wide.units Wide.lastIndexOfFrom JS.lastIndexOfFrom]. rewrite IH.
    change (JS.codeUnit c :: Wide.units s) with (Wide.units (String c s)).
    now rewrite wide_prefix.
Qed.

Lemma wide_String_substring (n m : nat) (s : string) :
  Wide.units (String.substring n m s) = firstn m (skipn n (Wide.units s)).
Proof.
  revert n m; induction s as [|c s IH]; intros [|n] [|m]; simpl; try reflexivity.
  - now rewrite (IH 0%nat m).
  - apply IH.
  - apply IH.
Qed.

Lemma wide_substring (s : string) (a b : Z) :
  Wide.substring (Wide.units s) a b = Wide.units (JS.substring s a b).
Proof.
  unfold Wide.substring, JS.substring, Wide.clampIndex, JS.clampIndex.
  now rewrite units_length, wide_String_substring.
Qed.

Lemma wide_substringFrom (s : string) (a : Z) :
  Wide.substringFrom (Wide.units s) a = Wide.units (JS.substringFrom s a).
Proof.
  unfold Wide.substringFrom, JS.substringFrom. now rewrite units_length, wide_substring.
Qed.

Lemma wide_matchLiteral (lit s : string) :
  Wide.matchLiteral (Wide.units lit) (Wide.units s)
  = option_map Wide.units (JS.matchLiteral lit s).
Proof.
  revert s; induction lit as [|l lit IH]; intros [|c s]; simpl; try reflexivity.
  change (Wide.Canonicalize (JS.codeUnit l)) with (JS.Canonicalize l).
  change (Wide.Canonicalize (JS.codeUnit c)) with (JS.Canonicalize c).
  destruct (JS.Canonicalize l =? JS.Canonicalize c)%N; [apply IH | reflexivity].
Qed.

Lemma wide_matchSpaces1 (s : string) :
  Wide.matchSpaces1 (Wide.units s) = option_map Wide.units (JS.matchSpaces1 s).
Proof.
  destruct s as [|c s]; simpl; [reflexivity|]. rewrite wide_isWhiteSpace.
  destruct (JS.isWhiteSpace c); simpl; [now rewrite wide_trimStart | reflexivity].
Qed.

Lemma wide_matchKeyword (alts : list string) (s : string) :
  Wide.matchKeyword (map Wide.units alts) (Wide.units s)
  = option_map Wide.units (JS.matchKeyword alts s).
Proof.
  induction alts as [|lit alts IH]; simpl; [reflexivity|].
  rewrite wide_matchLiteral. destruct (JS.matchLiteral lit s) as [r|]; simpl; [|exact IH].
  rewrite wide_matchSpaces1. destruct (JS.matchSpaces1 r); simpl; [reflexivity | exact IH].
Qed.

Lemma wide_removeKeyword (t : string) :
  Wide.removeKeyword (Wide.units t) = Wide.units (removeKeyword t).
Proof.
  unfold Wide.removeKeyword, removeKeyword. rewrite wide_trimStart.
  change [Wide.units "add task"; Wide.units "add"; Wide.units "create"]
    with (map Wide.units ["add task"; "add"; "create"]).
  rewrite wide_matchKeyword. now destruct (JS.matchKeyword _ _).
Qed.

Lemma wide_splitDueDate (r : string) :
  Wide.splitDueDate (Wide.units r)
  = (option_map Wide.units (fst (splitDueDate r)), Wide.units (snd (splitDueDate r))).
Proof.
  unfold Wide.splitDueDate, splitDueDate, Wide.lastIndexOf, JS.lastIndexOf.
  rewrite wide_toLowerCase, !wide_lastIndexOfFrom.
  destruct (0 <=? _)%Z; [|reflexivity].
  destruct (_ <? _)%Z; simpl;
    now rewrite wide_substringFrom, wide_substring, !wide_trim.
Qed.

Lemma wide_parseAdd (t : string) :
  Wide.parseAdd (Wide.units t) = wideCommand (parseAdd t).
Proof.
  unfold Wide.parseAdd, parseAdd. rewrite wide_removeKeyword, wide_splitDueDate.
  destruct (splitDueDate (removeKeyword t)) as [d r]. simpl.
  rewrite wide_trim, units_length.
  destruct (String.length (JS.trim r) =? 0)%nat; [reflexivity|].
  simpl. f_equal. destruct d as [[|c d]|]; reflexivity.
Qed.

(** On a Latin-1 message the embedding over code units computes what
    the Latin-1 embedding computes. *)
Lemma wide_parseCommand (m : string) :
  Wide.parseCommand (Wide.units m) = wideCommand (parseCommand m).
Proof.
  unfold Wide.parseCommand, parseCommand, Wide.isListCommand, isListCommand,
    Wide.isAddCommand, isAddCommand, Wide.startsWith, JS.startsWith.
  rewrite wide_trim, wide_toLowerCase, !wide_eqb, !wide_prefix.
  destruct (_ || _ || _); [reflexivity|].
  destruct (_ || _ || _); [apply wide_parseAdd | reflexivity].
Qed.

(** C5, where the code misses it: for "add İ by x" (the letter is
    U+0130) the remainder is İ, " by ", x, with " by " at index 1; the
    lower-cased copy is one code unit longer and holds " by " at index
    2, and the remainder is cut there: the title is İ and the text after
    index 6 is empty, so the command has no dueDate and "x" is lost. *)
Theorem capital_i_dot_loses_due_date :
  let remainder := Wide.removeKeyword (Wide.trim addCapitalIDot) in
  remainder = ([304%N] ++ Wide.units " by " ++ Wide.units "x")%list /\
  Wide.toLowerCase remainder
  = ([105%N; 775%N] ++ Wide.units " by " ++ Wide.units "x")%list /\
  Wide.lastIndexOf (Wide.toLowerCase remainder) (Wide.units " by ") = 2%Z /\
  Wide.substringFrom remainder (2 + 4) = [] /\
  Wide.parseCommand addCapitalIDot = Wide.CmdAdd [304%N] None /\
  Wide.parseCommand addCapitalIDot <> Wide.CmdAdd [304%N] (Some (Wide.units "x")).
Proof. vm_compute. repeat split; discriminate. Qed.

(** *** parseCommand for any case tables *)

(** [Wide] is this parseCommand with the tables of [Wide]. *)
Lemma unicode_parseCommand (m : list N) :
  Unicode.parseCommand Wide.toLowerCase Wide.Canonicalize m = Wide.parseCommand m.
Proof. reflexivity. Qed.

(** Trimming code units *)

Lemma trimStartU_split (s : list N) :
  exists ws, s = (ws ++ Wide.trimStart s)%list /\ allWhiteUnits ws = true.
Proof.
  induction s as [|c s (ws & IH & W)]; simpl.
  - exists []. auto.
  - destruct (Wide.isWhiteSpace c) eqn:E.
    + exists (c :: ws). simpl. rewrite E, W, <- IH. auto.
    + exists []. auto.
Qed.

Lemma trimStartU_startsWhite (s : list N) : startsWhiteUnits (Wide.trimStart s) = false.
Proof.
  induction s as [|c s IH]; simpl; [reflexivity|].
  destruct (Wide.isWhiteSpace c) eqn:E; [assumption | simpl; assumption].
Qed.

Lemma trimEndU_cons (c : N) (s : list N) :
  Wide.trimEnd (c :: s) =
  match Wide.trimEnd s with
  | [] => if Wide.isWhiteSpace c then [] else [c]
  | t => c :: t
  end.
Proof. reflexivity. Qed.

Lemma trimEndU_split (s : list N) :
  exists ws, s = (Wide.trimEnd s ++ ws)%list /\ allWhiteUnits ws = true.
Proof.
  induction s as [|c s (ws & IH & W)].
  - exists []. auto.
  - rewrite trimEndU_cons. destruct (Wide.trimEnd s) as [|d t] eqn:T.
    + simpl in IH. subst ws. destruct (Wide.isWhiteSpace c) eqn:E.
      * exists (c :: s). simpl. rewrite E, W. auto.
      * exists s. auto.
    + exists ws. split; [|exact W]. simpl. now f_equal.
Qed.

Lemma trimEndU_endsWhite (s : list N) : endsWhiteUnits (Wide.trimEnd s) = false.
Proof.
  induction s as [|c s IH]; [reflexivity|].
  rewrite trimEndU_cons. destruct (Wide.trimEnd s) as [|d t] eqn:T.
  - destruct (Wide.isWhiteSpace c) eqn:E; simpl; [reflexivity | assumption].
  - exact IH.
Qed.

Lemma trimEndU_head (c : N) (s : list N) :
  Wide.isWhiteSpace c = false -> exists t, Wide.trimEnd (c :: s) = c :: t.
Proof.
  intros E. rewrite trimEndU_cons. destruct (Wide.trimEnd s) as [|d t].
  - rewrite E. eauto.
  - eauto.
Qed.

Lemma trimU_startsWhite (s : list N) : startsWhiteUnits (Wide.trim s) = false.
Proof.
  unfold Wide.trim. pose proof (trimStartU_startsWhite s) as H.
  destruct (Wide.trimStart s) as [|c u]; [reflexivity|]. simpl in H.
  destruct (trimEndU_head c u H) as [t ->]. exact H.
Qed.

Lemma trimU_endsWhite (s : list N) : endsWhiteUnits (Wide.trim s) = false.
Proof. apply trimEndU_endsWhite. Qed.

Lemma trimU_split (s : list N) :
  exists lead trail,
    s = (lead ++ Wide.trim s ++ trail)%list /\
    allWhiteUnits lead = true /\ allWhiteUnits trail = true.
Proof.
  destruct (trimStartU_split s) as (lead & Hs & Wl).
  destruct (trimEndU_split (Wide.trimStart s)) as (trail & Ht & Wt).
  exists lead, trail. unfold Wide.trim. rewrite <- Ht. auto.
Qed.

(** The keyword match *)

Section AnyTables.

Variable toLowerCase : list N -> list N.
Variable Canonicalize : N -> N.

Lemma matchLiteralU_split (lit s r : list N) :
  Unicode.matchLiteral Canonicalize lit s = Some r ->
  exists kw, s = (kw ++ r)%list /\ map Canonicalize kw = map Canonicalize lit.
Proof.
  revert s; induction lit as [|l lit IH]; intros [|c s]; simpl; try discriminate.
  - intros [= <-]. exists []. auto.
  - intros [= <-]. exists []. auto.
  - destruct (Canonicalize l =? Canonicalize c)%N eqn:E; [|discriminate].
    intros H. apply IH in H as (kw & -> & Hk). apply N.eqb_eq in E.
    exists (c :: kw). simpl. rewrite Hk, E. auto.
Qed.

Lemma matchSpaces1U_split (s r : list N) :
  Wide.matchSpaces1 s = Some r ->
  exists ws, s = (ws ++ r)%list /\ ws <> [] /\ allWhiteUnits ws = true.
Proof.
  destruct s as [|c s]; simpl; [discriminate|].
  destruct (Wide.isWhiteSpace c) eqn:E; [|discriminate].
  intros [= <-]. destruct (trimStartU_split s) as (ws & Hs & W).
  exists (c :: ws). simpl. rewrite E, W, <- Hs. repeat split. discriminate.
Qed.

Lemma matchKeywordU_split (alts : list (list N)) (s r : list N) :
  Unicode.matchKeyword Canonicalize alts s = Some r ->
  exists lit kw ws,
    In lit alts /\ s = (kw ++ ws ++ r)%list /\
    map Canonicalize kw = map Canonicalize lit /\
    ws <> [] /\ allWhiteUnits ws = true.
Proof.
  induction alts as [|lit alts IH]; simpl; [discriminate|].
  assert (Hnext : Unicode.matchKeyword Canonicalize alts s = Some r ->
                  exists lit0 kw ws,
                    (lit = lit0 \/ In lit0 alts) /\ s = (kw ++ ws ++ r)%list /\
                    map Canonicalize kw = map Canonicalize lit0 /\
                    ws <> [] /\ allWhiteUnits ws = true).
  { intros H. apply IH in H as (lit0 & kw & ws & Hin & H). exists lit0, kw, ws. auto. }
  destruct (Unicode.matchLiteral Canonicalize lit s) as [r1|] eqn:E1; [|exact Hnext].
  destruct (Wide.matchSpaces1 r1) as [r2|] eqn:E2; [|exact Hnext].
  intros [= <-]. apply matchLiteralU_split in E1 as (kw & -> & Hk).
  apply matchSpaces1U_split in E2 as (ws & -> & Hne & W).
  exists lit, kw, ws. auto.
Qed.

End AnyTables.

Lemma trimStartU_id (s : list N) : startsWhiteUnits s = false -> Wide.trimStart s = s.
Proof. destruct s as [|c s]; simpl; [reflexivity | now intros ->]. Qed.

Lemma trimEndU_id (s : list N) : endsWhiteUnits s = false -> Wide.trimEnd s = s.
Proof.
  induction s as [|c s IH]; [reflexivity|].
  intros H. rewrite trimEndU_cons. destruct s as [|d s].
  - simpl in *. now rewrite H.
  - rewrite IH by exact H. reflexivity.
Qed.

Lemma trimU_trim (s : list N) : Wide.trim (Wide.trim s) = Wide.trim s.
Proof.
  unfold Wide.trim at 1.
  rewrite trimStartU_id by apply trimU_startsWhite.
  apply trimEndU_id, trimU_endsWhite.
Qed.

Lemma trimU_slice (s : list N) :
  exists a b, s = (a ++ Wide.trim s ++ b)%list.
Proof. destruct (trimU_split s) as (a & b & H & _). eauto. Qed.

(** lastIndexOf on code units *)

Lemma prefixU_app (p s : list N) :
  Wide.prefix p s = true <-> exists t, s = (p ++ t)%list.
Proof.
  revert s; induction p as [|d p IH]; intros s; simpl.
  - split; eauto.
  - destruct s as [|c s].
    + split; [discriminate | intros [t H]; discriminate H].
    + rewrite andb_true_iff, N.eqb_eq, IH. split.
      * intros [-> [t ->]]. eauto.
      * intros [t [= -> ->]]. eauto.
Qed.

Lemma occursAtU_nil (p : list N) (k : nat) :
  occursAtUnits p [] k -> p = [] /\ k = 0%nat.
Proof.
  intros (pre & post & E & L). destruct pre; [|discriminate E].
  destruct p; [auto | discriminate E].
Qed.

Lemma occursAtU_cons (p : list N) (c : N) (s : list N) (k : nat) :
  occursAtUnits p s k -> occursAtUnits p (c :: s) (S k).
Proof. intros (pre & post & -> & <-). exists (c :: pre), post. auto. Qed.

Lemma occursAtU_0 (p s : list N) :
  occursAtUnits p s 0 <-> Wide.prefix p s = true.
Proof.
  rewrite prefixU_app. split.
  - intros (pre & post & -> & L). destruct pre; [|discriminate L]. eauto.
  - intros [t ->]. exists [], t. auto.
Qed.

Lemma occursAtU_S (p : list N) (c : N) (s : list N) (k : nat) :
  occursAtUnits p (c :: s) (S k) -> occursAtUnits p s k.
Proof.
  intros (pre & post & E & L). destruct pre as [|d pre]; [discriminate L|].
  simpl in E, L. injection E as _ ->. injection L as <-. exists pre, post. auto.
Qed.

Lemma lastIndexOfFromU_sound (i : Z) (s p : list N) :
  (0 <= i)%Z -> (0 <= Wide.lastIndexOfFrom i s p)%Z ->
  (i <= Wide.lastIndexOfFrom i s p)%Z /\
  occursAtUnits p s (Z.to_nat (Wide.lastIndexOfFrom i s p - i)).
Proof.
  revert i; induction s as [|c s IH]; intros i Hi; cbn [Wide.lastIndexOfFrom].
  - destruct (Wide.prefix p []) eqn:E; [|lia].
    intros _. split; [lia|]. replace (i - i)%Z with 0%Z by lia.
    now apply occursAtU_0.
  - destruct (0 <=? Wide.lastIndexOfFrom (i + 1) s p)%Z eqn:R.
    + intros _. apply Z.leb_le in R. destruct (IH (i + 1)%Z) as [Hle Hocc]; [lia | lia |].
      split; [lia|].
      replace (Z.to_nat (Wide.lastIndexOfFrom (i + 1) s p - i))
        with (S (Z.to_nat (Wide.lastIndexOfFrom (i + 1) s p - (i + 1)))) by lia.
      now apply occursAtU_cons.
    + destruct (Wide.prefix p (c :: s)) eqn:E; [|lia].
      intros _. split; [lia|]. replace (i - i)%Z with 0%Z by lia.
      now apply occursAtU_0.
Qed.

Lemma lastIndexOfFromU_max (i : Z) (s p : list N) (k : nat) :
  (0 <= i)%Z -> occursAtUnits p s k ->
  (i + Z.of_nat k <= Wide.lastIndexOfFrom i s p)%Z.
Proof.
  revert i k; induction s as [|c s IH]; intros i k Hi Hocc; cbn [Wide.lastIndexOfFrom].
  - apply occursAtU_nil in Hocc as [-> ->]. simpl. lia.
  - destruct k as [|k].
    + apply occursAtU_0 in Hocc. rewrite Hocc.
      destruct (0 <=? Wide.lastIndexOfFrom (i + 1) s p)%Z eqn:R; [|lia].
      apply Z.leb_le in R.
      destruct (lastIndexOfFromU_sound (i + 1) s p) as [Hle _]; lia.
    + apply occursAtU_S in Hocc. specialize (IH (i + 1)%Z k ltac:(lia) Hocc).
      destruct (0 <=? Wide.lastIndexOfFrom (i + 1) s p)%Z eqn:R; [lia|].
      apply Z.leb_gt in R. lia.
Qed.

Lemma lastIndexOfU_sound (s p : list N) :
  (0 <= Wide.lastIndexOf s p)%Z -> occursAtUnits p s (Z.to_nat (Wide.lastIndexOf s p)).
Proof.
  intros H. destruct (lastIndexOfFromU_sound 0 s p) as [_ Hocc]; [lia | exact H |].
  unfold Wide.lastIndexOf. now rewrite Z.sub_0_r in Hocc.
Qed.

Lemma lastIndexOfU_max (s p : list N) (k : nat) :
  occursAtUnits p s k -> (Z.of_nat k <= Wide.lastIndexOf s p)%Z.
Proof. intros H. apply (lastIndexOfFromU_max 0 s p k) in H; [exact H | lia]. Qed.

(** substring on code units *)

Lemma substringU_head (r : list N) (idx : Z) :
  (0 <= idx)%Z -> Wide.substring r 0 idx = firstn (Z.to_nat idx) r.
Proof.
  intros H. unfold Wide.substring, Wide.clampIndex.
  replace (Z.to_nat (Z.min (Z.max 0 0) (Z.of_nat (length r)))) with 0%nat by lia.
  rewrite Nat.min_0_l, Nat.max_0_l, Nat.sub_0_r, skipn_O.
  destruct (Z.le_gt_cases idx (Z.of_nat (length r))) as [Hle|Hgt].
  - now replace (Z.to_nat (Z.min (Z.max idx 0) (Z.of_nat (length r)))) with (Z.to_nat idx) by lia.
  - replace (Z.to_nat (Z.min (Z.max idx 0) (Z.of_nat (length r)))) with (length r) by lia.
    rewrite (firstn_all2 (n := length r)) by lia.
    rewrite (firstn_all2 (n := Z.to_nat idx)) by lia. reflexivity.
Qed.

Lemma substringFromU_tail (r : list N) (a : Z) :
  (0 <= a)%Z -> Wide.substringFrom r a = skipn (Z.to_nat a) r.
Proof.
  intros H. unfold Wide.substringFrom, Wide.substring, Wide.clampIndex.
  replace (Z.to_nat (Z.min (Z.max (Z.of_nat (length r)) 0) (Z.of_nat (length r))))
    with (length r) by lia.
  destruct (Z.le_gt_cases a (Z.of_nat (length r))) as [Hle|Hgt].
  - replace (Z.to_nat (Z.min (Z.max a 0) (Z.of_nat (length r)))) with (Z.to_nat a) by lia.
    rewrite Nat.min_l, Nat.max_r by lia.
    apply firstn_all2. rewrite length_skipn. lia.
  - replace (Z.to_nat (Z.min (Z.max a 0) (Z.of_nat (length r)))) with (length r) by lia.
    rewrite Nat.min_id, Nat.max_id, Nat.sub_diag. simpl.
    symmetry. apply skipn_all2. lia.
Qed.

Section AddBranch.

Variable toLowerCase : list N -> list N.
Variable Canonicalize : N -> N.

(** The remainder is what follows the keyword and the white space after
    it, or the whole text when the regular expression does not match. *)
Lemma removeKeywordU_split (t : list N) :
  startsWhiteUnits t = false ->
  exists kw ws,
    t = (kw ++ ws ++ Unicode.removeKeyword Canonicalize t)%list /\
    allWhiteUnits ws = true /\
    (kw = [] /\ ws = [] \/
     ws <> [] /\
     exists lit, In lit ["add task"; "add"; "create"] /\
                 map Canonicalize kw = map Canonicalize (Wide.units lit)).
Proof.
  intros Hs. unfold Unicode.removeKeyword. rewrite (trimStartU_id t Hs).
  destruct (Unicode.matchKeyword _ _ t) as [r|] eqn:E.
  - apply matchKeywordU_split in E as (lit & kw & ws & Hin & Ht & Hk & Hne & W).
    exists kw, ws. repeat split; try assumption. right. split; [exact Hne|].
    destruct Hin as [<-|[<-|[<-|[]]]];
      [exists "add task" | exists "add" | exists "create"]; simpl; auto.
  - exists [], []. simpl. auto.
Qed.

(** The add branch cuts the remainder at the last index at which its
    lower-cased copy holds " by " or " on ". *)
Lemma parseAddU_shape (t title : list N) (dueDate : option (list N)) :
  Unicode.parseAdd toLowerCase Canonicalize t = Wide.CmdAdd title dueDate ->
  let remainder := Unicode.removeKeyword Canonicalize t in
  let lower := toLowerCase remainder in
  ((forall i, ~ dateKeywordAtUnits lower i) /\
   title = Wide.trim remainder /\ dueDate = None) \/
  (exists i,
     dateKeywordAtUnits lower i /\
     (forall j, dateKeywordAtUnits lower j -> (j <= i)%nat) /\
     title = Wide.trim (firstn i remainder) /\
     dueDate = Wide.orUndefined (Some (Wide.trim (skipn (i + 4) remainder)))).
Proof.
  intros H remainder lower. unfold Unicode.parseAdd in H. fold remainder in H.
  unfold Unicode.splitDueDate in H. fold lower in H.
  set (byIndex := Wide.lastIndexOf lower (Wide.units " by ")) in *.
  set (onIndex := Wide.lastIndexOf lower (Wide.units " on ")) in *.
  cbv zeta in H.
  replace (if (onIndex <? byIndex)%Z then 4%Z else 4%Z) with 4%Z in H
    by (destruct (onIndex <? byIndex)%Z; reflexivity).
  destruct (0 <=? Z.max byIndex onIndex)%Z eqn:Hidx.
  - right. apply Z.leb_le in Hidx. exists (Z.to_nat (Z.max byIndex onIndex)).
    rewrite substringU_head, substringFromU_tail, trimU_trim in H by lia.
    replace (Z.to_nat (Z.max byIndex onIndex + 4))
      with (Z.to_nat (Z.max byIndex onIndex) + 4)%nat in H by lia.
    destruct (length _ =? 0)%nat; [discriminate|]. injection H as <- <-.
    repeat split.
    + unfold dateKeywordAtUnits.
      destruct (Z.max_spec byIndex onIndex) as [[_ E]|[_ E]]; rewrite E in *;
        [right | left]; now apply lastIndexOfU_sound.
    + intros j [Hj|Hj]; apply lastIndexOfU_max in Hj; fold byIndex onIndex in Hj; lia.
  - left. apply Z.leb_gt in Hidx.
    destruct (length _ =? 0)%nat; [discriminate|]. injection H as <- <-.
    repeat split.
    intros i [Hi|Hi]; apply lastIndexOfU_max in Hi; fold byIndex onIndex in Hi; lia.
Qed.

Lemma parseCommandU_CmdAdd (m title : list N) (dueDate : option (list N)) :
  Unicode.parseCommand toLowerCase Canonicalize m = Wide.CmdAdd title dueDate ->
  Wide.isAddCommand (toLowerCase (Wide.trim m)) = true /\
  Unicode.parseAdd toLowerCase Canonicalize (Wide.trim m) = Wide.CmdAdd title dueDate.
Proof.
  unfold Unicode.parseCommand.
  destruct (Wide.isListCommand _); [discriminate|].
  destruct (Wide.isAddCommand _); [auto | discriminate].
Qed.

(** The due date split off, when there is one, is a trimmed text. *)
Lemma splitDueDateU_trimmed (r : list N) (d : option (list N)) (r' : list N) :
  Unicode.splitDueDate toLowerCase r = (d, r') ->
  d = None \/ exists y, d = Some (Wide.trim y).
Proof.
  unfold Unicode.splitDueDate. destruct (0 <=? _)%Z; intros [= <- _]; eauto.
Qed.

End AddBranch.

(** C6: the title and the dueDate of an add command are code units of
    the message as it was typed, whatever the case tables are.  The
    message is white space, then what the regular expression takes away
    (nothing, or a keyword in any casing and the white space after it),
    then the remainder, then white space; the add pattern is matched on
    the lower-cased copy of the text between the outer white space.  The
    split point is searched in the lower-cased copy of the remainder, as
    the last index that holds " by " or " on " there, and applied to the
    remainder itself: the title is the trimmed remainder when there is
    no such index, and otherwise the trimmed text before that index, the
    dueDate being the trimmed text from four code units after it, or
    absent when that is empty.  Both are slices of the remainder.  With
    the tables of [Wide], "  ADD Task  Call Bob ON Monday By 5pm " is the
    add command with title "Call Bob ON Monday" and dueDate "5pm". *)
Theorem parse_keeps_original_units (toLowerCase : list N -> list N) (Canonicalize : N -> N)
    (m title : list N) (dueDate : option (list N)) :
  Unicode.parseCommand toLowerCase Canonicalize m = Wide.CmdAdd title dueDate ->
  (exists lead kw ws remainder trail,
    m = (lead ++ kw ++ ws ++ remainder ++ trail)%list /\
    allWhiteUnits lead = true /\ allWhiteUnits ws = true /\ allWhiteUnits trail = true /\
    (kw = [] /\ ws = [] \/
     ws <> [] /\
     exists lit, In lit ["add task"; "add"; "create"] /\
                 map Canonicalize kw = map Canonicalize (Wide.units lit)) /\
    Wide.isAddCommand (toLowerCase (kw ++ ws ++ remainder)%list) = true /\
    (((forall i, ~ dateKeywordAtUnits (toLowerCase remainder) i) /\
      title = Wide.trim remainder /\ dueDate = None) \/
     (exists i,
        dateKeywordAtUnits (toLowerCase remainder) i /\
        (forall j, dateKeywordAtUnits (toLowerCase remainder) j -> (j <= i)%nat) /\
        title = Wide.trim (firstn i remainder) /\
        dueDate = Wide.orUndefined (Some (Wide.trim (skipn (i + 4) remainder))))) /\
    (exists a b, remainder = (a ++ title ++ b)%list) /\
    (forall due, dueDate = Some due -> exists a b, remainder = (a ++ due ++ b)%list)) /\
  Unicode.parseCommand Wide.toLowerCase Wide.Canonicalize
    (Wide.units "  ADD Task  Call Bob ON Monday By 5pm ")
  = Wide.CmdAdd (Wide.units "Call Bob ON Monday") (Some (Wide.units "5pm")).
Proof.
  intros H. split; [|vm_compute; reflexivity].
  apply parseCommandU_CmdAdd in H as [Hadd H].
  destruct (trimU_split m) as (lead & trail & Hm & Wl & Wt).
  destruct (removeKeywordU_split Canonicalize (Wide.trim m) (trimU_startsWhite m))
    as (kw & ws & Ht & Ww & Hkw).
  pose proof (parseAddU_shape toLowerCase Canonicalize _ _ _ H) as Hshape.
  cbv zeta in Hshape.
  set (remainder := Unicode.removeKeyword Canonicalize (Wide.trim m)) in *.
  exists lead, kw, ws, remainder, trail.
  split; [|split; [exact Wl | split; [exact Ww | split; [exact Wt | split; [exact Hkw|]]]]].
  { rewrite Hm at 1. rewrite Ht at 1. now rewrite <- !List.app_assoc. }
  split; [now rewrite <- Ht|].
  split; [exact Hshape|].
  destruct Hshape as [(_ & -> & ->)|(i & _ & _ & -> & ->)].
  - split; [apply trimU_slice | discriminate].
  - split.
    + destruct (trimU_slice (firstn i remainder)) as (a & b & E).
      exists a, (b ++ skipn i remainder)%list.
      rewrite <- (firstn_skipn i remainder) at 1. rewrite E at 1.
      now rewrite <- !List.app_assoc.
    + intros due Hd.
      destruct (trimU_slice (skipn (i + 4) remainder)) as (a & b & E).
      assert (Hdue : due = Wide.trim (skipn (i + 4) remainder)).
      { destruct (Wide.trim (skipn (i + 4) remainder)); simpl in Hd; congruence. }
      exists (firstn (i + 4) remainder ++ a)%list, b.
      rewrite <- (firstn_skipn (i + 4) remainder) at 1. rewrite E at 1.
      rewrite Hdue. now rewrite <- !List.app_assoc.
Qed.

(** C10: for every message and whatever the case tables are, the title
    of an add command is not empty and has no white space at its start or
    end, and so is its dueDate when it has one.  The dueDate is kept from
    being empty by the guard of line 57 alone: for "add İ by x" (the
    letter is U+0130) the text cut off as the due date is empty, and the
    command has no dueDate. *)
Theorem add_fields_never_blank (toLowerCase : list N -> list N) (Canonicalize : N -> N)
    (m title : list N) (dueDate : option (list N)) :
  Unicode.parseCommand toLowerCase Canonicalize m = Wide.CmdAdd title dueDate ->
  (title <> [] /\ startsWhiteUnits title = false /\ endsWhiteUnits title = false) /\
  (forall due, dueDate = Some due ->
     due <> [] /\ startsWhiteUnits due = false /\ endsWhiteUnits due = false) /\
  (fst (Unicode.splitDueDate Wide.toLowerCase ([304%N] ++ Wide.units " by x")) = Some [] /\
   Unicode.parseCommand Wide.toLowerCase Wide.Canonicalize addCapitalIDot
   = Wide.CmdAdd [304%N] None).
Proof.
  intros H. apply parseCommandU_CmdAdd in H as [_ H]. unfold Unicode.parseAdd in H.
  destruct (Unicode.splitDueDate toLowerCase _) as [d r] eqn:Es.
  destruct (Wide.trim r) as [|c t'] eqn:Et; [discriminate H|]. simpl in H.
  injection H as <- <-.
  split; [|split; [|split; reflexivity]].
  - rewrite <- Et. repeat split;
      [rewrite Et; discriminate | apply trimU_startsWhite | apply trimU_endsWhite].
  - intros due Hd.
    destruct (splitDueDateU_trimmed toLowerCase _ _ _ Es) as [->|(y & ->)];
      [discriminate Hd|].
    destruct (Wide.trim y) as [|x0 x1] eqn:Ex; [discriminate Hd|].
    simpl in Hd. injection Hd as <-. rewrite <- Ex.
    repeat split;
      [rewrite Ex; discriminate | apply trimU_startsWhite | apply trimU_endsWhite].
Qed.

(** *** The none intent for any case tables *)

Lemma endsWhiteU_app (a b : list N) :
  b <> [] -> endsWhiteUnits (a ++ b) = endsWhiteUnits b.
Proof.
  intros Hb. induction a as [|c a IH]; [reflexivity|].
  simpl. destruct (a ++ b)%list eqn:E; [|exact IH].
  destruct a; simpl in E; [congruence | discriminate].
Qed.

Lemma endsWhiteU_allWhite (s : list N) :
  allWhiteUnits s = true -> s <> [] -> endsWhiteUnits s = true.
Proof.
  induction s as [|c s IH]; [congruence|]. simpl. intros W _.
  apply andb_true_iff in W as [Hc W].
  destruct s; [exact Hc | apply IH; [exact W | discriminate]].
Qed.

Lemma trimU_head_nonempty (c : N) (s : list N) :
  Wide.isWhiteSpace c = false -> Wide.trim (c :: s) <> [].
Proof.
  intros E. unfold Wide.trim. simpl Wide.trimStart. rewrite E.
  destruct (trimEndU_head c s E) as [t ->]. discriminate.
Qed.

Lemma prefixU_space (e : N) (l : list N) :
  e <> 32%N -> Wide.prefix [32%N] (e :: l) = false.
Proof.
  intros H. cbn [Wide.prefix]. rewrite andb_true_r. apply N.eqb_neq. congruence.
Qed.

Lemma wide_lowerKeepsStart : lowerKeepsStart Wide.toLowerCase.
Proof.
  split; [reflexivity|].
  intros [|c s]; [reflexivity|]. cbn [startsWhiteUnits]. intros Hc.
  unfold Wide.toLowerCase, Wide.startsWith. cbn [flat_map].
  assert (Hne : c <> 32%N) by (intros ->; discriminate Hc).
  unfold Wide.lowerUnit.
  destruct ((65 <=? c) && (c <=? 90))%N eqn:E1.
  - apply andb_true_iff in E1 as [A B]. apply N.leb_le in A, B.
    apply prefixU_space. lia.
  - destruct ((192 <=? c) && (c <=? 222) && negb (c =? 215))%N eqn:E2.
    + apply andb_true_iff in E2 as [E2 _]. apply andb_true_iff in E2 as [A B].
      apply N.leb_le in A, B. apply prefixU_space. lia.
    + destruct (c =? 304)%N eqn:E3; [reflexivity|].
      apply prefixU_space. exact Hne.
Qed.

Section NoneIntent.

Variable toLowerCase : list N -> list N.
Variable Canonicalize : N -> N.
Hypothesis tables : lowerKeepsStart toLowerCase.

Lemma matchSpaces1U_startsWhite (s r : list N) :
  Wide.matchSpaces1 s = Some r -> startsWhiteUnits r = false.
Proof.
  destruct s as [|c s]; simpl; [discriminate|].
  destruct (Wide.isWhiteSpace c); [|discriminate].
  intros [= <-]. apply trimStartU_startsWhite.
Qed.

Lemma matchKeywordU_startsWhite (alts : list (list N)) (s r : list N) :
  Unicode.matchKeyword Canonicalize alts s = Some r -> startsWhiteUnits r = false.
Proof.
  induction alts as [|lit alts IH]; simpl; [discriminate|].
  destruct (Unicode.matchLiteral Canonicalize lit s) as [r1|]; [|exact IH].
  destruct (Wide.matchSpaces1 r1) as [r2|] eqn:E; [|exact IH].
  intros [= <-]. now apply matchSpaces1U_startsWhite in E.
Qed.

(** The remainder of a trimmed text that matches an add pattern starts
    with a code unit that is not white space. *)
Lemma removeKeywordU_head (t : list N) :
  startsWhiteUnits t = false -> endsWhiteUnits t = false ->
  Wide.isAddCommand (toLowerCase t) = true ->
  exists c r, Unicode.removeKeyword Canonicalize t = c :: r /\ Wide.isWhiteSpace c = false.
Proof.
  intros Hs He Hadd.
  assert (Hne : t <> []).
  { intros ->. destruct tables as [E _]. rewrite E in Hadd. discriminate Hadd. }
  destruct (removeKeywordU_split Canonicalize t Hs) as (kw & ws & Ht & Ww & Hkw).
  assert (Hrs : startsWhiteUnits (Unicode.removeKeyword Canonicalize t) = false).
  { unfold Unicode.removeKeyword. rewrite (trimStartU_id t Hs).
    destruct (Unicode.matchKeyword _ _ t) eqn:E; [|exact Hs].
    now apply matchKeywordU_startsWhite in E. }
  destruct (Unicode.removeKeyword Canonicalize t) as [|c r] eqn:Er.
  - exfalso. destruct Hkw as [[-> ->]|[Hws _]].
    + simpl in Ht. congruence.
    + rewrite List.app_nil_r in Ht. rewrite Ht, endsWhiteU_app in He by exact Hws.
      rewrite endsWhiteU_allWhite in He by assumption. discriminate.
  - exists c, r. auto.
Qed.

Lemma dateKeywordAtUnits_0 (s : list N) :
  dateKeywordAtUnits s 0 -> Wide.startsWith s [32%N] = true.
Proof.
  intros [H|H]; apply occursAtU_0, prefixU_app in H as [t ->]; reflexivity.
Qed.

(** On a trimmed text that matches an add pattern the add branch always
    gives an add command. *)
Lemma parseAddU_is_add (t : list N) :
  startsWhiteUnits t = false -> endsWhiteUnits t = false ->
  Wide.isAddCommand (toLowerCase t) = true ->
  Unicode.parseAdd toLowerCase Canonicalize t <> Wide.CmdNone.
Proof.
  intros Hs He Hadd.
  destruct (removeKeywordU_head t Hs He Hadd) as (c & r & Er & Hc).
  unfold Unicode.parseAdd, Unicode.splitDueDate. rewrite Er.
  set (lower := toLowerCase (c :: r)).
  set (byIndex := Wide.lastIndexOf lower (Wide.units " by ")).
  set (onIndex := Wide.lastIndexOf lower (Wide.units " on ")).
  cbv zeta.
  destruct (0 <=? Z.max byIndex onIndex)%Z eqn:Hidx.
  - apply Z.leb_le in Hidx. rewrite substringU_head, trimU_trim by lia.
    assert (Hat : dateKeywordAtUnits lower (Z.to_nat (Z.max byIndex onIndex))).
    { unfold dateKeywordAtUnits.
      destruct (Z.max_spec byIndex onIndex) as [[_ E]|[_ E]]; rewrite E in *;
        [right | left]; now apply lastIndexOfU_sound. }
    destruct (Z.to_nat (Z.max byIndex onIndex)) as [|i].
    + apply dateKeywordAtUnits_0 in Hat. destruct tables as [_ H2].
      specialize (H2 (c :: r) Hc). fold lower in H2. congruence.
    + simpl firstn. pose proof (trimU_head_nonempty c (firstn i r) Hc) as Hne.
      destruct (Wide.trim (c :: firstn i r)); [congruence | discriminate].
  - pose proof (trimU_head_nonempty c r Hc) as Hne.
    destruct (Wide.trim (c :: r)); [congruence | discriminate].
Qed.

End NoneIntent.

(** For every message of code units, parseCommand gives the none intent
    exactly when neither a list pattern nor an add pattern matches the
    lower-cased copy of the trimmed message: the empty-title return of
    the add branch is never taken.  This asks of [toLowerCase] only that
    the lower case of the empty string is empty and that the lower case
    of a text starting with no white space does not start with a space. *)
Theorem parse_none_by_pattern_units (toLowerCase : list N -> list N) (Canonicalize : N -> N)
    (m : list N) :
  lowerKeepsStart toLowerCase ->
  (Unicode.parseCommand toLowerCase Canonicalize m = Wide.CmdNone <->
   Wide.isListCommand (toLowerCase (Wide.trim m)) = false /\
   Wide.isAddCommand (toLowerCase (Wide.trim m)) = false).
Proof.
  intros Ht. unfold Unicode.parseCommand.
  destruct (Wide.isListCommand _); [split; [discriminate | intros [H _]; discriminate H]|].
  destruct (Wide.isAddCommand _) eqn:Ea; [|split; auto].
  split; [|intros [_ H]; discriminate H].
  intros H. exfalso.
  exact (parseAddU_is_add toLowerCase Canonicalize Ht _
           (trimU_startsWhite m) (trimU_endsWhite m) Ea H).
Qed.

(** ** Facts about the store *)

Section StoreFacts.

Variable P : Platform.

Lemma tasksOf_insert (objs : gmap string (gmap string (list Task)))
    (st : gmap string (list Task)) (self : string) (l : list Task) (ev : list Event) :
  tasksOf (mkWorld (<[self := <["tasks" := l]> st]> objs) ev) self = l.
Proof. unfold tasksOf. simpl. rewrite lookup_insert_eq. simpl. now rewrite lookup_insert_eq. Qed.

Lemma tasksOf_events (w : World) (ev : list Event) (self : string) :
  tasksOf (mkWorld (objects w) ev) self = tasksOf w self.
Proof. reflexivity. Qed.

(** An add request whose body is a JSON object with a title and a due
    date that can be converted: one storage read, one task appended, one
    storage write, status 201. *)
Lemma TaskManager_fetch_add (self : string) (env : Env) (u : string)
    (fields : list (string * json)) (w : World) (t : string) (d : option string) :
  JS.endsWith (pathname P u) "/add" = true ->
  toString (lookupField fields "title") = Some t ->
  textIfTruthy (lookupField fields "dueDate") = Some d ->
  let task := mkTask (randomUUID env) t d (nowISO env) in
  TaskManager_fetch P self env (mkRequest "POST" u (BodyJson (JObj fields))) w =
  (Ret (mkResponse 201 jsonHeaders (BodyJson (taskToJson task))),
   mkWorld (<[self := <["tasks" := (tasksOf w self ++ [task])%list]>
                        (default ∅ (objects w !! self))]> (objects w))
           ((events w ++ [StorageGet self "tasks"]) ++ [StoragePut self "tasks"])%list).
Proof.
  intros H Ht Hd task.
  unfold TaskManager_fetch, bind, storageGet, storagePut, emit, toStringM. simpl.
  rewrite H. simpl. rewrite Ht. unfold textIfTruthy in Hd.
  destruct (truthy (lookupField fields "dueDate")).
  - destruct (toString (lookupField fields "dueDate")); [|discriminate].
    injection Hd as <-. reflexivity.
  - injection Hd as <-. reflexivity.
Qed.

(** An add request whose title or due date cannot be converted: one
    storage read, a TypeError, nothing written. *)
Lemma TaskManager_fetch_add_throws (self : string) (env : Env) (u : string)
    (fields : list (string * json)) (w : World) :
  JS.endsWith (pathname P u) "/add" = true ->
  toString (lookupField fields "title") = None \/
  textIfTruthy (lookupField fields "dueDate") = None ->
  TaskManager_fetch P self env (mkRequest "POST" u (BodyJson (JObj fields))) w =
  (Throw TypeError, mkWorld (objects w) (events w ++ [StorageGet self "tasks"])%list).
Proof.
  intros H Hc.
  unfold TaskManager_fetch, bind, storageGet, storagePut, emit, toStringM. simpl.
  rewrite H. simpl. unfold textIfTruthy in Hc.
  destruct (toString (lookupField fields "title")) as [t|]; [|reflexivity].
  destruct Hc as [Hc|Hc]; [discriminate|].
  destruct (truthy (lookupField fields "dueDate")); [|discriminate].
  destruct (toString (lookupField fields "dueDate")); [discriminate|reflexivity].
Qed.

Lemma TaskManager_fetch_list (self : string) (env : Env) (u : string) (w : World) :
  JS.endsWith (pathname P u) "/list" = true ->
  TaskManager_fetch P self env (listRequest u) w =
  (Ret (mkResponse 200 jsonHeaders (BodyJson (JArr (map taskToJson (tasksOf w self))))),
   mkWorld (objects w) (events w ++ [StorageGet self "tasks"])%list).
Proof.
  intros H. unfold TaskManager_fetch, bind, storageGet, emit. simpl.
  rewrite H. reflexivity.
Qed.

Lemma TaskManager_fetch_post_elsewhere (self : string) (env : Env) (u : string)
    (b : Body) (w : World) :
  JS.endsWith (pathname P u) "/add" = false ->
  TaskManager_fetch P self env (mkRequest "POST" u b) w =
  (Ret notFound, mkWorld (objects w) (events w ++ [StorageGet self "tasks"])%list).
Proof.
  intros H. unfold TaskManager_fetch, bind, storageGet, emit. simpl.
  rewrite H. reflexivity.
Qed.

Lemma toStringJson_strings (l : list string) :
  toStringJson (JArr (map JStr l)) = Some (String.concat "," l).
Proof.
  simpl. induction l as [|x l IH]; [reflexivity|].
  simpl. destruct l as [|y l]; [reflexivity|].
  simpl in IH |- *. now rewrite IH.
Qed.

Lemma addBody_title (c : AddCall) :
  addBody (callTitle c) (callDue c) =
  BodyJson (JObj (("title", JStr (callTitle c))
                  :: match callDue c with Some d => [("dueDate", JStr d)] | None => [] end)).
Proof. reflexivity. Qed.

Lemma TaskManager_fetch_addCall (self : string) (c : AddCall) (w : World) :
  JS.endsWith (pathname P (callUrl c)) "/add" = true ->
  TaskManager_fetch P self (callEnv c) (addRequest c) w =
  (Ret (mkResponse 201 jsonHeaders (BodyJson (taskToJson (addedTask c)))),
   mkWorld (<[self := <["tasks" := (tasksOf w self ++ [addedTask c])%list]>
                        (default ∅ (objects w !! self))]> (objects w))
           ((events w ++ [StorageGet self "tasks"]) ++ [StoragePut self "tasks"])%list).
Proof.
  intros H. unfold addRequest, addBody, addedTask.
  destruct c as [e u t [[|d0 d]|]]; simpl in *;
    (erewrite TaskManager_fetch_add; [reflexivity | exact H | reflexivity | reflexivity]).
Qed.

Lemma runAdds_tasks (self : string) (calls : list AddCall) (w : World) :
  Forall (fun c => JS.endsWith (pathname P (callUrl c)) "/add" = true) calls ->
  tasksOf (runAdds P self calls w) self = (tasksOf w self ++ map addedTask calls)%list.
Proof.
  intros H. revert w. induction H as [|c calls Hc _ IH]; intros w; simpl.
  - now rewrite List.app_nil_r.
  - rewrite IH, (TaskManager_fetch_addCall self c w Hc). simpl.
    rewrite tasksOf_insert. now rewrite <- List.app_assoc.
Qed.

End StoreFacts.

(** ** The claims about the per-user store *)

(** C1: on a store that starts empty, add calls with titles t1..tn and
    then list return the n tasks with these titles in insertion order;
    every add appends exactly one task at the end of the list; list
    leaves the stored list as it is, and returns the empty array when
    nothing was added. *)
Theorem store_add_then_list (P : Platform) (self : string) (calls : list AddCall)
    (w0 : World) (env : Env) (u : string) :
  Forall (fun c => JS.endsWith (pathname P (callUrl c)) "/add" = true) calls ->
  tasksOf w0 self = [] ->
  JS.endsWith (pathname P u) "/list" = true ->
  let w := runAdds P self calls w0 in
  let result := TaskManager_fetch P self env (listRequest u) w in
  (exists tasks,
     fst result = Ret (mkResponse 200 jsonHeaders (BodyJson (JArr (map taskToJson tasks)))) /\
     map title tasks = map callTitle calls /\
     length tasks = length calls) /\
  objects (snd result) = objects w /\
  (forall c w1,
     JS.endsWith (pathname P (callUrl c)) "/add" = true ->
     tasksOf (snd (TaskManager_fetch P self (callEnv c) (addRequest c) w1)) self
     = (tasksOf w1 self ++ [addedTask c])%list) /\
  fst (TaskManager_fetch P self env (listRequest u) w0)
  = Ret (mkResponse 200 jsonHeaders (BodyJson (JArr []))).
Proof.
  intros Hadds Hempty Hlist w result. subst result.
  rewrite !(TaskManager_fetch_list P self env u _ Hlist). simpl.
  repeat split.
  - exists (map addedTask calls). subst w.
    rewrite (runAdds_tasks P self calls w0 Hadds), Hempty. simpl.
    repeat split.
    + rewrite map_map. reflexivity.
    + now rewrite length_map.
  - intros c w1 Hc. rewrite (TaskManager_fetch_addCall P self c w1 Hc). simpl.
    apply tasksOf_insert.
  - now rewrite Hempty.
Qed.

(** C9, as the code has it: the store does not validate the title.  A
    POST whose path ends with /add and whose body is a JSON object
    appends exactly one task and answers 201 with it whenever
    [String(title)] and, for a truthy dueDate, [String(dueDate)] can be
    taken, and throws a TypeError with nothing stored when they cannot:
    an object with an own toString property, also inside an array.  The
    title is the string itself (the empty one too), the digits of a
    number, "true", "false", "null", "undefined" when the body has no
    title, the elements joined by commas for an array (null elements as
    the empty string), "[object Object]" for any other object.  The
    dueDate is absent when the body's dueDate is missing, null, false, 0
    or the empty string, and the string coercion otherwise (the empty
    string for an empty array).  The URL before /add does not matter. *)
Theorem store_add_unvalidated (P : Platform) (self : string) (env : Env) (u : string)
    (fields : list (string * json)) (w : World) :
  JS.endsWith (pathname P u) "/add" = true ->
  let post := fun body => mkRequest "POST" u (BodyJson (JObj body)) in
  let task := fun t d => mkTask (randomUUID env) t d (nowISO env) in
  let appends := fun body t d => appendsTask P self env (post body) w (task t d) in
  let throws := fun body => throwsTypeError P self env (post body) w in
  (forall t d,
     toString (lookupField fields "title") = Some t ->
     textIfTruthy (lookupField fields "dueDate") = Some d ->
     appends fields t d) /\
  (toString (lookupField fields "title") = None \/
   textIfTruthy (lookupField fields "dueDate") = None ->
   throws fields) /\
  (* the title *)
  (forall s, appends [("title", JStr s)] s None) /\
  (forall n, appends [("title", JNum n)] n None) /\
  appends [("title", JBool true)] "true" None /\
  appends [("title", JBool false)] "false" None /\
  appends [("title", JNull)] "null" None /\
  appends [] "undefined" None /\
  (forall l, appends [("title", JArr (map JStr l))] (String.concat "," l) None) /\
  (forall a b,
     appends [("title", JArr [JNull; JArr [JStr a; JStr b]; JBool true])]
             ("," ++ a ++ "," ++ b ++ ",true") None) /\
  (forall f, lookupField f "toString" = None ->
     appends [("title", JObj f)] "[object Object]" None) /\
  (forall f x, lookupField f "toString" = Some x ->
     throws [("title", JObj f)] /\
     throws [("title", JArr [JStr "a"; JObj f])]) /\
  (* the due date *)
  (forall t, appends [("title", JStr t); ("dueDate", JStr "")] t None) /\
  (forall t, appends [("title", JStr t); ("dueDate", JNull)] t None) /\
  (forall t, appends [("title", JStr t); ("dueDate", JBool false)] t None) /\
  (forall t, appends [("title", JStr t); ("dueDate", JNum "0")] t None) /\
  (forall t c d,
     appends [("title", JStr t); ("dueDate", JStr (String c d))] t (Some (String c d))) /\
  (forall t n, n <> "0" ->
     appends [("title", JStr t); ("dueDate", JNum n)] t (Some n)) /\
  (forall t, appends [("title", JStr t); ("dueDate", JBool true)] t (Some "true")) /\
  (forall t, appends [("title", JStr t); ("dueDate", JArr [])] t (Some "")) /\
  (forall t f, lookupField f "toString" = None ->
     appends [("title", JStr t); ("dueDate", JObj f)] t (Some "[object Object]")) /\
  (forall t f x, lookupField f "toString" = Some x ->
     throws [("title", JStr t); ("dueDate", JObj f)]) /\
  (* the URL *)
  (forall u',
     JS.endsWith (pathname P u') "/add" = true ->
     TaskManager_fetch P self env (mkRequest "POST" u' (BodyJson (JObj fields))) w
     = TaskManager_fetch P self env (post fields) w).
Proof.
  intros H post task appends throws.
  assert (Happ : forall body t d,
            toString (lookupField body "title") = Some t ->
            textIfTruthy (lookupField body "dueDate") = Some d ->
            appends body t d).
  { intros body t d Ht Hd. unfold appends, appendsTask, post.
    rewrite (TaskManager_fetch_add P self env u body w t d H Ht Hd). simpl.
    split; [reflexivity | apply tasksOf_insert]. }
  assert (Hthr : forall body,
            toString (lookupField body "title") = None \/
            textIfTruthy (lookupField body "dueDate") = None ->
            throws body).
  { intros body Hc. unfold throws, throwsTypeError, post.
    rewrite (TaskManager_fetch_add_throws P self env u body w H Hc). auto. }
  repeat match goal with |- _ /\ _ => split end.
  - intros t d. apply Happ.
  - exact (Hthr fields).
  - intros s. now apply Happ.
  - intros n. now apply Happ.
  - now apply Happ.
  - now apply Happ.
  - now apply Happ.
  - now apply Happ.
  - intros l. apply Happ; [|reflexivity]. apply toStringJson_strings.
  - intros a b. apply Happ; [|reflexivity].
    cbn. now rewrite !app_assoc.
  - intros f Hf. apply Happ; [|reflexivity]. simpl. now rewrite Hf.
  - intros f x Hf. split; apply Hthr; left; simpl; now rewrite Hf.
  - intros t. now apply Happ.
  - intros t. now apply Happ.
  - intros t. now apply Happ.
  - intros t. now apply Happ.
  - intros t c d. now apply Happ.
  - intros t n Hn. apply Happ; [reflexivity|].
    unfold textIfTruthy. simpl.
    destruct (String.eqb_spec n "0") as [E|_]; [contradiction | reflexivity].
  - intros t. now apply Happ.
  - intros t. now apply Happ.
  - intros t f Hf. apply Happ; [reflexivity|].
    unfold textIfTruthy. simpl. now rewrite Hf.
  - intros t f x Hf. apply Hthr. right. unfold textIfTruthy. simpl. now rewrite Hf.
  - intros u' H'. unfold post.
    destruct (toString (lookupField fields "title")) as [t|] eqn:Et.
    + destruct (textIfTruthy (lookupField fields "dueDate")) as [d|] eqn:Ed.
      * now rewrite (TaskManager_fetch_add P self env u' fields w t d H' Et Ed),
          (TaskManager_fetch_add P self env u fields w t d H Et Ed).
      * now rewrite (TaskManager_fetch_add_throws P self env u' fields w H' (or_intror Ed)),
          (TaskManager_fetch_add_throws P self env u fields w H (or_intror Ed)).
    + now rewrite (TaskManager_fetch_add_throws P self env u' fields w H' (or_introl Et)),
        (TaskManager_fetch_add_throws P self env u fields w H (or_introl Et)).
Qed.

(** ** Facts about the handler *)

Section HandlerFacts.

Variable P : Platform.

(** *** Locality of the computations *)

Lemma touchesOnly_refl (k : string) (w : World) : touchesOnly k w w.
Proof. split; [auto|]. exists []. split; [now rewrite List.app_nil_r | constructor]. Qed.

Lemma touchesOnly_trans (k : string) (w1 w2 w3 : World) :
  touchesOnly k w1 w2 -> touchesOnly k w2 w3 -> touchesOnly k w1 w3.
Proof.
  intros [H1 (e1 & E1 & F1)] [H2 (e2 & E2 & F2)]. split.
  - intros j Hj. now rewrite H2, H1.
  - exists (e1 ++ e2)%list. split.
    + now rewrite E2, E1, List.app_assoc.
    + apply Forall_app; auto.
Qed.

Lemma local_ret {A} (k : string) (a : A) : localTo k (ret a).
Proof. intros w. apply touchesOnly_refl. Qed.

Lemma local_throw {A} (k : string) (e : Exn) : localTo k (@throw A e).
Proof. intros w. apply touchesOnly_refl. Qed.

Lemma local_bind {A B} (k : string) (m : M A) (f : A -> M B) :
  localTo k m -> (forall a, localTo k (f a)) -> localTo k (bind m f).
Proof.
  intros Hm Hf w. unfold bind. specialize (Hm w).
  destruct (m w) as [[a|e] w1]; simpl in *; [|exact Hm].
  eapply touchesOnly_trans; [exact Hm | apply Hf].
Qed.

Lemma local_tryCatch {A} (k : string) (m : M A) (h : Exn -> M A) :
  localTo k m -> (forall e, localTo k (h e)) -> localTo k (tryCatch m h).
Proof.
  intros Hm Hh w. unfold tryCatch. specialize (Hm w).
  destruct (m w) as [[a|e] w1]; simpl in *; [exact Hm|].
  eapply touchesOnly_trans; [exact Hm | apply Hh].
Qed.

Lemma local_emit (k : string) (e : Event) :
  (forall j, eventObject e = Some j -> j = k) -> localTo k (emit e).
Proof.
  intros He w. split; [auto|]. exists [e]. split; [reflexivity | now constructor].
Qed.

Lemma local_storageGet (k key : string) : localTo k (storageGet k key).
Proof.
  apply local_bind.
  - apply local_emit. now intros j [= <-].
  - intros _ w. apply touchesOnly_refl.
Qed.

Lemma local_storagePut (k key : string) (value : list Task) :
  localTo k (storagePut k key value).
Proof.
  apply local_bind.
  - apply local_emit. now intros j [= <-].
  - intros _ w. split.
    + intros j Hj. simpl. now rewrite lookup_insert_ne.
    + exists []. split; [simpl; now rewrite List.app_nil_r | constructor].
Qed.

Lemma local_bodyJson (k : string) (b : Body) : localTo k (bodyJson b).
Proof. destruct b; [apply local_throw .. | apply local_ret]. Qed.

Lemma local_destructure (k : string) (v : json) (name : string) :
  localTo k (destructure v name).
Proof. destruct v; first [apply local_throw | apply local_ret]. Qed.

Lemma local_toStringM (k : string) (v : jsval) : localTo k (toStringM v).
Proof. unfold toStringM. destruct (toString v); [apply local_ret | apply local_throw]. Qed.

Ltac local_step :=
  first
    [ apply local_ret | apply local_throw | apply local_bodyJson
    | apply local_destructure | apply local_toStringM
    | apply local_storageGet | apply local_storagePut
    | match goal with |- localTo _ (if ?b then _ else _) => destruct b end
    | apply local_bind; [|intros ?] | apply local_tryCatch; [|intros ?] ].

Lemma local_TaskManager_fetch (k : string) (env : Env) (request : Request) :
  localTo k (TaskManager_fetch P k env request).
Proof.
  unfold TaskManager_fetch. apply local_bind; [apply local_storageGet|]. intros stored.
  destruct (_ && _); [repeat local_step|].
  destruct (_ && _); apply local_ret.
Qed.

Lemma local_taskLines (k : string) (tasks : list json) (idx : nat) :
  localTo k (taskLines idx tasks).
Proof.
  revert idx; induction tasks as [|t rest IH]; intros idx; simpl; [apply local_ret|].
  apply local_bind; [unfold taskLine; repeat local_step|]. intros line.
  apply local_bind; [apply IH|]. intros lines. apply local_ret.
Qed.

Lemma local_listReply (k : string) (tasks : json) : localTo k (listReply tasks).
Proof.
  destruct tasks as [| | | |[|t rest]|]; try apply local_ret.
  unfold listReply. apply local_bind; [apply local_taskLines | intros; apply local_ret].
Qed.

Lemma local_extractReply (k : string) (result : jsval) : localTo k (extractReply P result).
Proof. destruct result as [[]|]; first [apply local_throw | apply local_ret]. Qed.

Lemma local_aiRun (k : string) (env : Env) (messages : list (string * string)) :
  localTo k (aiRun env messages).
Proof.
  unfold aiRun. apply local_bind; [apply local_emit; discriminate|]. intros _.
  destruct (AI_run env model messages); [apply local_throw | apply local_ret].
Qed.

Lemma local_respond (env : Env) (userId message : string) :
  localTo (idFromName P userId) (respond P env userId message).
Proof.
  unfold respond. destruct (parseCommand message) as [t d| |].
  - apply local_bind; [apply local_TaskManager_fetch | intros; apply local_ret].
  - apply local_bind; [apply local_TaskManager_fetch|]. intros listRes.
    apply local_bind; [apply local_bodyJson|]. intros tasks.
    apply local_bind; [apply local_listReply | intros; apply local_ret].
  - apply local_tryCatch.
    + apply local_bind; [apply local_aiRun|]. intros result.
      apply local_bind; [apply local_extractReply | intros; apply local_ret].
    + intros err. apply local_bind; [apply local_emit; discriminate | intros; apply local_ret].
Qed.

(** *** Evaluating the handler *)

Lemma fetch_chat (env : Env) (request : Request) :
  pathname P (url request) = "/api/chat" -> method request = "POST" ->
  fetch P env request =
  tryCatch (chat P env request)
           (fun err => ret (mkResponse 400 textHeaders (BodyText "Bad Request"))).
Proof. intros Hp Hm. unfold fetch. rewrite Hp, Hm. reflexivity. Qed.

Lemma chat_valid (env : Env) (request : Request) (v : json) (userId : string) (w : World) :
  requestBody request = BodyJson v ->
  getProp v "userId" = Some (JStr userId) ->
  chat P env request w =
  match getProp v "message" with
  | Some (JStr message) => respond P env userId message w
  | _ => (Ret (mkResponse 400 textHeaders (BodyText "Invalid request body")), w)
  end.
Proof.
  intros Hb Hu. unfold chat. rewrite Hb.
  destruct v; try discriminate Hu. simpl in *.
  unfold bind, ret, destructure. simpl. rewrite Hu.
  destruct (lookupField fields "message") as [[]|]; reflexivity.
Qed.

Lemma chat_malformed (env : Env) (request : Request) (w : World) :
  hasStringFields (requestBody request) = false ->
  chat P env request w = (Ret (mkResponse 400 textHeaders (BodyText "Invalid request body")), w) \/
  exists e, chat P env request w = (Throw e, w).
Proof.
  unfold hasStringFields, chat. destruct (requestBody request) as [|t|v].
  - right. exists SyntaxError. reflexivity.
  - right. exists SyntaxError. reflexivity.
  - destruct v; try (left; reflexivity); try (right; exists TypeError; reflexivity).
    simpl. unfold bind, ret, destructure. simpl.
    destruct (lookupField fields "userId") as [[]|];
      destruct (lookupField fields "message") as [[]|];
      intros H; try discriminate H; left; reflexivity.
Qed.

Lemma respond_model_throws (env : Env) (userId message : string) (e : Exn) (w : World) :
  parseCommand message = CmdNone ->
  AI_run env model [("system", SYSTEM_PROMPT P); ("user", message)] = AiThrows e ->
  respond P env userId message w =
  (Ret (replyResponse 503 [("reply", JStr unavailable)]),
   mkWorld (objects w)
           ((events w ++ [ModelRun model]) ++ [ConsoleError "AI model invocation failed"])%list).
Proof.
  intros Hc Ha. unfold respond. rewrite Hc.
  unfold tryCatch, bind, aiRun, emit. simpl. rewrite Ha. reflexivity.
Qed.

Lemma fetch_model_throws (env : Env) (request : Request) (v : json)
    (userId message : string) (e : Exn) (w : World) :
  pathname P (url request) = "/api/chat" -> method request = "POST" ->
  requestBody request = BodyJson v ->
  getProp v "userId" = Some (JStr userId) ->
  getProp v "message" = Some (JStr message) ->
  parseCommand message = CmdNone ->
  AI_run env model [("system", SYSTEM_PROMPT P); ("user", message)] = AiThrows e ->
  fetch P env request w =
  (Ret (replyResponse 503 [("reply", JStr unavailable)]),
   mkWorld (objects w)
           ((events w ++ [ModelRun model]) ++ [ConsoleError "AI model invocation failed"])%list).
Proof.
  intros Hp Hm Hb Hu Hmsg Hc Ha. rewrite (fetch_chat env request Hp Hm).
  unfold tryCatch. rewrite (chat_valid env request v userId w Hb Hu), Hmsg.
  now rewrite (respond_model_throws env userId message e w Hc Ha).
Qed.

Lemma local_chat (env : Env) (request : Request) (v : json) (userId : string) :
  requestBody request = BodyJson v ->
  getProp v "userId" = Some (JStr userId) ->
  localTo (idFromName P userId) (chat P env request).
Proof.
  intros Hb Hu w. rewrite (chat_valid env request v userId w Hb Hu).
  destruct (getProp v "message") as [[]|]; try apply touchesOnly_refl.
  apply local_respond.
Qed.

Lemma local_fetch (env : Env) (request : Request) (v : json) (userId : string) :
  requestBody request = BodyJson v ->
  getProp v "userId" = Some (JStr userId) ->
  localTo (idFromName P userId) (fetch P env request).
Proof.
  intros Hb Hu. unfold fetch.
  destruct (_ && _); [apply local_ret|].
  destruct (_ && _); [|apply local_ret].
  apply local_tryCatch; [now apply (local_chat env request v) | intros; apply local_ret].
Qed.

Lemma touchesOnly_tasksOf (k j : string) (w w' : World) :
  touchesOnly k w w' -> j <> k -> tasksOf w' j = tasksOf w j.
Proof. intros [H _] Hj. unfold tasksOf. now rewrite H. Qed.

Lemma respond_list_empty (env : Env) (userId : string) (w : World) :
  JS.endsWith (pathname P ("https://task/" ++ userId ++ "/list")) "/list" = true ->
  tasksOf w (idFromName P userId) = [] ->
  fst (respond P env userId "list" w) =
  Ret (replyResponse 200 [("reply", JStr "You have no tasks."); ("tasks", JArr [])]).
Proof.
  intros Hl He. unfold respond.
  change (parseCommand "list") with CmdList. cbv iota beta zeta.
  unfold bind at 1.
  change (mkRequest "GET" ("https://task/" ++ userId ++ "/list") NoBody)
    with (listRequest ("https://task/" ++ userId ++ "/list")).
  rewrite (TaskManager_fetch_list P _ env _ w Hl), He. reflexivity.
Qed.

End HandlerFacts.

(** ** The claims about the request handler *)

(** C2: a chat request of user X reads and writes no other user's
    store.  When idFromName gives distinct users distinct objects, the
    request leaves the object of every other user Y as it was and none of
    its storage accesses is to Y's object; if Y's store was empty, a list
    for Y afterwards returns the empty array (on the store, and through
    the chat endpoint when the list URL of Y has a pathname ending in
    /list).  Every storage access of the request is to the object
    idFromName gives for X. *)
Theorem user_isolation (P : Platform) (env : Env) (request : Request) (w : World)
    (v : json) (X Y : string) :
  (forall a b, idFromName P a = idFromName P b -> a = b) ->
  X <> Y ->
  requestBody request = BodyJson v ->
  getProp v "userId" = Some (JStr X) ->
  let w' := snd (fetch P env request w) in
  objects w' !! idFromName P Y = objects w !! idFromName P Y /\
  (exists evs,
     events w' = (events w ++ evs)%list /\
     Forall (fun e => forall j, eventObject e = Some j -> j = idFromName P X) evs /\
     Forall (fun e => eventObject e <> Some (idFromName P Y)) evs) /\
  (tasksOf w (idFromName P Y) = [] ->
   forall env' u,
     (JS.endsWith (pathname P u) "/list" = true ->
      fst (TaskManager_fetch P (idFromName P Y) env' (listRequest u) w')
      = Ret (mkResponse 200 jsonHeaders (BodyJson (JArr [])))) /\
     (pathname P u = "/api/chat" ->
      JS.endsWith (pathname P ("https://task/" ++ Y ++ "/list")) "/list" = true ->
      fst (fetch P env' (chatRequest u Y "list") w')
      = Ret (replyResponse 200 [("reply", JStr "You have no tasks."); ("tasks", JArr [])]))).
Proof.
  intros Hinj Hxy Hb Hu w'.
  assert (Hne : idFromName P Y <> idFromName P X) by (intros E; apply Hxy; symmetry; auto).
  pose proof (local_fetch P env request v X Hb Hu w) as Hloc. fold w' in Hloc.
  pose proof (touchesOnly_tasksOf _ _ _ _ Hloc Hne) as Htasks.
  destruct Hloc as [Hobj (evs & Hev & Hall)].
  split; [now apply Hobj|]. split.
  - exists evs. repeat split; [exact Hev | exact Hall |].
    eapply Forall_impl; [exact Hall|]. intros e He E. apply Hne. now apply He.
  - intros Hempty env' u. rewrite <- Htasks in Hempty. split.
    + intros Hl. rewrite (TaskManager_fetch_list P _ env' u w' Hl), Hempty. reflexivity.
    + intros Hp Hl. rewrite (fetch_chat P env' (chatRequest u Y "list") Hp eq_refl).
      unfold tryCatch.
      rewrite (chat_valid P env' (chatRequest u Y "list") _ Y w' eq_refl eq_refl). simpl.
      pose proof (respond_list_empty P env' Y w' Hl Hempty) as R.
      destruct (respond P env' Y "list" w') as [[r|e] w2]; simpl in R; [|discriminate R].
      exact R.
Qed.

(** C3, as the code has it: when the model call throws, the handler
    returns a response (no exception leaves it) with status 503, which
    is not a success status, and the fixed unavailability text as reply;
    the response and the world after it are the same whatever the error
    was. *)
Theorem model_failure_answered_503 (P : Platform) (env : Env) (request : Request)
    (v : json) (userId message : string) (e : Exn) (w : World) :
  pathname P (url request) = "/api/chat" -> method request = "POST" ->
  requestBody request = BodyJson v ->
  getProp v "userId" = Some (JStr userId) ->
  getProp v "message" = Some (JStr message) ->
  parseCommand message = CmdNone ->
  AI_run env model [("system", SYSTEM_PROMPT P); ("user", message)] = AiThrows e ->
  (exists response,
     fst (fetch P env request w) = Ret response /\
     Response_ok response = false /\ status response = 503%Z /\
     responseBody response = BodyJson (JObj [("reply", JStr unavailable)])) /\
  (forall env' e',
     AI_run env' model [("system", SYSTEM_PROMPT P); ("user", message)] = AiThrows e' ->
     fetch P env' request w = fetch P env request w).
Proof.
  intros Hp Hm Hb Hu Hmsg Hc Ha.
  rewrite (fetch_model_throws P env request v userId message e w Hp Hm Hb Hu Hmsg Hc Ha).
  split.
  - eexists. repeat split; reflexivity.
  - intros env' e' Ha'.
    now rewrite (fetch_model_throws P env' request v userId message e' w Hp Hm Hb Hu Hmsg Hc Ha').
Qed.

(** C4: a POST /api/chat whose message parses to the none intent, when
    the model call throws, is answered with status 503 and the JSON body
    { reply: unavailability text }; the handler returns, it does not
    throw.  The request made one model call and no storage access. *)
Theorem none_intent_model_throws (P : Platform) (env : Env) (request : Request)
    (v : json) (userId message : string) (e : Exn) (w : World) :
  pathname P (url request) = "/api/chat" -> method request = "POST" ->
  requestBody request = BodyJson v ->
  getProp v "userId" = Some (JStr userId) ->
  getProp v "message" = Some (JStr message) ->
  parseCommand message = CmdNone ->
  AI_run env model [("system", SYSTEM_PROMPT P); ("user", message)] = AiThrows e ->
  fst (fetch P env request w)
  = Ret (mkResponse 503 jsonHeaders (BodyJson (JObj [("reply", JStr unavailable)]))) /\
  objects (snd (fetch P env request w)) = objects w /\
  events (snd (fetch P env request w))
  = (events w ++ [ModelRun model; ConsoleError "AI model invocation failed"])%list.
Proof.
  intros Hp Hm Hb Hu Hmsg Hc Ha.
  rewrite (fetch_model_throws P env request v userId message e w Hp Hm Hb Hu Hmsg Hc Ha).
  simpl. repeat split. now rewrite <- List.app_assoc.
Qed.

(** C8: a POST /api/chat whose body has no string userId or no string
    message (a field is missing or of another type, or the body is not
    JSON) is answered 400, and the world is as before: no storage read,
    no storage write, no model call, every task list unchanged. *)
Theorem malformed_chat_rejected (P : Platform) (env : Env) (request : Request) (w : World) :
  pathname P (url request) = "/api/chat" -> method request = "POST" ->
  hasStringFields (requestBody request) = false ->
  exists response,
    fetch P env request w = (Ret response, w) /\ status response = 400%Z.
Proof.
  intros Hp Hm Hbad. rewrite (fetch_chat P env request Hp Hm). unfold tryCatch.
  destruct (chat_malformed P env request w Hbad) as [->|[e ->]];
    eexists; split; reflexivity.
Qed.

(** ** The claims at concrete inputs *)

Lemma examplePlatform_inj (a b : string) :
  idFromName examplePlatform a = idFromName examplePlatform b -> a = b.
Proof. intros H. now injection H. Qed.

Lemma store_add_then_list_witness :
  exists tasks,
    fst (TaskManager_fetch examplePlatform "id:alice" failingEnv
           (listRequest "https://task/alice/list")
           (runAdds examplePlatform "id:alice" [callA; callB] emptyWorld))
    = Ret (mkResponse 200 jsonHeaders (BodyJson (JArr (map taskToJson tasks)))) /\
    map title tasks = ["A"; "B"] /\ length tasks = 2%nat.
Proof.
  apply (store_add_then_list examplePlatform "id:alice" [callA; callB] emptyWorld
           failingEnv "https://task/alice/list").
  - repeat constructor.
  - reflexivity.
  - reflexivity.
Defined.

Lemma user_isolation_witness :
  objects (snd (fetch examplePlatform failingEnv
                  (chatRequest workerUrl "alice" "add buy milk by Friday") emptyWorld))
    !! idFromName examplePlatform "bob"
  = objects emptyWorld !! idFromName examplePlatform "bob".
Proof.
  apply (user_isolation examplePlatform failingEnv
           (chatRequest workerUrl "alice" "add buy milk by Friday") emptyWorld
           (JObj [("userId", JStr "alice"); ("message", JStr "add buy milk by Friday")])
           "alice" "bob").
  - exact examplePlatform_inj.
  - discriminate.
  - reflexivity.
  - reflexivity.
Defined.

Lemma model_failure_answered_503_witness :
  exists response,
    fst (fetch examplePlatform failingEnv (chatRequest workerUrl "alice" "hello there") emptyWorld)
    = Ret response /\
    Response_ok response = false /\ status response = 503%Z /\
    responseBody response = BodyJson (JObj [("reply", JStr unavailable)]).
Proof.
  apply (model_failure_answered_503 examplePlatform failingEnv
           (chatRequest workerUrl "alice" "hello there")
           (JObj [("userId", JStr "alice"); ("message", JStr "hello there")])
           "alice" "hello there" (ServiceError "model down") emptyWorld);
    reflexivity.
Defined.

Lemma model_failure_is_not_success :
  AI_run failingEnv model
    [("system", SYSTEM_PROMPT examplePlatform); ("user", "hello there")]
  = AiThrows (ServiceError "model down") /\
  exists response,
    fst (fetch examplePlatform failingEnv (chatRequest workerUrl "alice" "hello there") emptyWorld)
    = Ret response /\
    status response = 503%Z /\ Response_ok response = false.
Proof. split; [reflexivity|]. eexists. repeat split. Qed.

Lemma none_intent_model_throws_witness :
  fst (fetch examplePlatform failingEnv (chatRequest workerUrl "alice" "what can you do?") emptyWorld)
  = Ret (mkResponse 503 jsonHeaders (BodyJson (JObj [("reply", JStr unavailable)]))).
Proof.
  apply (none_intent_model_throws examplePlatform failingEnv
           (chatRequest workerUrl "alice" "what can you do?")
           (JObj [("userId", JStr "alice"); ("message", JStr "what can you do?")])
           "alice" "what can you do?" (ServiceError "model down") emptyWorld);
    reflexivity.
Defined.

Lemma parse_due_date_split_witness :
  parseCommand "add Call Bob ON Monday By 5pm" = CmdAdd "Call Bob ON Monday" (Some "5pm").
Proof.
  apply (proj1 (parse_due_date_split "add Call Bob ON Monday By 5pm" eq_refl)
           "Call Bob ON Monday" " By " "5pm").
  - reflexivity.
  - left. reflexivity.
  - intros j Hj Hat. apply splitIndex_max in Hat.
    change (Z.of_nat j <= 18)%Z in Hat. simpl in Hj. lia.
Defined.

Lemma parse_keeps_original_casing_witness :
  exists lead kw ws trail,
    allWhite lead = true /\ allWhite trail = true /\
    isKeyword kw /\ ws <> "" /\ allWhite ws = true /\
    ((Some "5pm" = None /\
      "  ADD Task  Call Bob ON Monday By 5pm " = lead ++ kw ++ ws ++ "Call Bob ON Monday" ++ trail) \/
     (exists ws2 sep ws3 due,
        Some "5pm" = Some due /\ isDateKeyword sep /\
        allWhite ws2 = true /\ allWhite ws3 = true /\
        "  ADD Task  Call Bob ON Monday By 5pm "
        = lead ++ kw ++ ws ++ "Call Bob ON Monday" ++ ws2 ++ sep ++ ws3 ++ due ++ trail)).
Proof.
  apply (parse_keeps_original_casing "  ADD Task  Call Bob ON Monday By 5pm "
           "Call Bob ON Monday" (Some "5pm")).
  reflexivity.
Defined.

Lemma malformed_chat_rejected_witness :
  exists response,
    fetch examplePlatform failingEnv
      (mkRequest "POST" workerUrl
         (BodyJson (JObj [("userId", JNum "42"); ("message", JStr "add buy milk")])))
      emptyWorld
    = (Ret response, emptyWorld) /\ status response = 400%Z.
Proof.
  apply (malformed_chat_rejected examplePlatform failingEnv
           (mkRequest "POST" workerUrl
              (BodyJson (JObj [("userId", JNum "42"); ("message", JStr "add buy milk")])))
           emptyWorld);
    reflexivity.
Defined.

Lemma store_add_unvalidated_witness :
  appendsTask examplePlatform "id:alice" failingEnv
    (mkRequest "POST" "https://task/alice/add"
       (BodyJson (JObj [("title", JNum "42"); ("dueDate", JArr [])])))
    emptyWorld
    (mkTask (randomUUID failingEnv) "42" (Some "") (nowISO failingEnv)).
Proof.
  pose proof (store_add_unvalidated examplePlatform "id:alice" failingEnv
                "https://task/alice/add" [("title", JNum "42"); ("dueDate", JArr [])]
                emptyWorld eq_refl) as T.
  cbv zeta in T. destruct T as [T _]. apply T; reflexivity.
Defined.

(** C9, where the claim fails: the title of the body {"title": {"toString": 1}}
    is an object that cannot be converted to a string; the store throws a
    TypeError, answers nothing and stores nothing. *)
Lemma store_add_object_title_throws :
  JS.endsWith (pathname examplePlatform "https://task/alice/add") "/add" = true /\
  fst (TaskManager_fetch examplePlatform "id:alice" failingEnv
         (mkRequest "POST" "https://task/alice/add"
            (BodyJson (JObj [("title", JObj [("toString", JNum "1")])])))
         emptyWorld)
  = Throw TypeError /\
  tasksOf (snd (TaskManager_fetch examplePlatform "id:alice" failingEnv
                  (mkRequest "POST" "https://task/alice/add"
                     (BodyJson (JObj [("title", JObj [("toString", JNum "1")])])))
                  emptyWorld))
          "id:alice"
  = [].
Proof. repeat split. Qed.

(** "add İstanbul trip by Friday", the first letter of the title being
    U+0130: the lower-cased remainder is one code unit longer than the
    remainder, so the cut falls one code unit late. *)
Lemma parse_keeps_original_units_witness :
  Unicode.parseCommand Wide.toLowerCase Wide.Canonicalize
    (Wide.units "add " ++ [304%N] ++ Wide.units "stanbul trip by Friday")%list
  = Wide.CmdAdd ([304%N] ++ Wide.units "stanbul trip")%list (Some (Wide.units "riday")) /\
  exists lead kw ws remainder trail,
    (Wide.units "add " ++ [304%N] ++ Wide.units "stanbul trip by Friday")%list
    = (lead ++ kw ++ ws ++ remainder ++ trail)%list /\
    allWhiteUnits lead = true /\ allWhiteUnits ws = true /\ allWhiteUnits trail = true /\
    (kw = [] /\ ws = [] \/
     ws <> [] /\
     exists lit, In lit ["add task"; "add"; "create"] /\
                 map Wide.Canonicalize kw = map Wide.Canonicalize (Wide.units lit)) /\
    Wide.isAddCommand (Wide.toLowerCase (kw ++ ws ++ remainder)%list) = true /\
    (((forall i, ~ dateKeywordAtUnits (Wide.toLowerCase remainder) i) /\
      ([304%N] ++ Wide.units "stanbul trip")%list = Wide.trim remainder /\
      Some (Wide.units "riday") = None) \/
     (exists i,
        dateKeywordAtUnits (Wide.toLowerCase remainder) i /\
        (forall j, dateKeywordAtUnits (Wide.toLowerCase remainder) j -> (j <= i)%nat) /\
        ([304%N] ++ Wide.units "stanbul trip")%list = Wide.trim (firstn i remainder) /\
        Some (Wide.units "riday")
        = Wide.orUndefined (Some (Wide.trim (skipn (i + 4) remainder))))) /\
    (exists a b, remainder = (a ++ ([304%N] ++ Wide.units "stanbul trip") ++ b)%list) /\
    (forall due, Some (Wide.units "riday") = Some due ->
       exists a b, remainder = (a ++ due ++ b)%list).
Proof.
  assert (H : Unicode.parseCommand Wide.toLowerCase Wide.Canonicalize
                (Wide.units "add " ++ [304%N] ++ Wide.units "stanbul trip by Friday")%list
              = Wide.CmdAdd ([304%N] ++ Wide.units "stanbul trip")%list
                            (Some (Wide.units "riday")))
    by (vm_compute; reflexivity).
  split; [exact H|].
  exact (proj1 (parse_keeps_original_units Wide.toLowerCase Wide.Canonicalize _ _ _ H)).
Defined.

Lemma add_fields_never_blank_witness :
  (([304%N] ++ Wide.units "stanbul trip")%list <> [] /\
   startsWhiteUnits ([304%N] ++ Wide.units "stanbul trip")%list = false /\
   endsWhiteUnits ([304%N] ++ Wide.units "stanbul trip")%list = false) /\
  (Wide.units "riday" <> [] /\
   startsWhiteUnits (Wide.units "riday") = false /\
   endsWhiteUnits (Wide.units "riday") = false).
Proof.
  assert (H : Unicode.parseCommand Wide.toLowerCase Wide.Canonicalize
                (Wide.units "add " ++ [304%N] ++ Wide.units "stanbul trip by Friday")%list
              = Wide.CmdAdd ([304%N] ++ Wide.units "stanbul trip")%list
                            (Some (Wide.units "riday")))
    by (vm_compute; reflexivity).
  destruct (add_fields_never_blank Wide.toLowerCase Wide.Canonicalize _ _ _ H)
    as (T1 & T2 & _).
  split; [exact T1 | exact (T2 _ eq_refl)].
Defined.

Lemma parse_none_by_pattern_units_witness :
  lowerKeepsStart Wide.toLowerCase /\
  Unicode.parseCommand Wide.toLowerCase Wide.Canonicalize ([304%N] ++ Wide.units "stanbul")
  = Wide.CmdNone.
Proof.
  split; [exact wide_lowerKeepsStart|].
  apply (parse_none_by_pattern_units Wide.toLowerCase Wide.Canonicalize
           ([304%N] ++ Wide.units "stanbul") wide_lowerKeepsStart).
  split; reflexivity.
Defined.

(** ** The examples of the design document *)

Example parse_list : parseCommand "list" = CmdList.
Proof. reflexivity. Qed.

Example parse_list_tasks : parseCommand "list tasks" = CmdList.
Proof. reflexivity. Qed.

Example parse_show_tasks : parseCommand "show tasks anything" = CmdList.
Proof. reflexivity. Qed.

Example parse_create :
  parseCommand "create finish the report" = CmdAdd "finish the report" None.
Proof. reflexivity. Qed.

Example parse_add_task_alone : parseCommand "add task" = CmdAdd "task" None.
Proof. reflexivity. Qed.

(** Alice adds a task; Bob's list is empty and Alice's holds the task. *)
Example alice_and_bob :
  let w := snd (fetch examplePlatform failingEnv
                  (chatRequest workerUrl "alice" "add buy milk by Friday") emptyWorld) in
  map title (tasksOf w "id:alice") = ["buy milk"] /\
  map dueDate (tasksOf w "id:alice") = [Some "Friday"] /\
  tasksOf w "id:bob" = [] /\
  fst (fetch examplePlatform failingEnv (chatRequest workerUrl "bob" "list") w)
  = Ret (replyResponse 200 [("reply", JStr "You have no tasks."); ("tasks", JArr [])]).
Proof. vm_compute. repeat split. Qed.

(** * Further properties *)

(** ** More about parseCommand *)

Lemma allWhite_app (a b : string) :
  allWhite (a ++ b) = allWhite a && allWhite b.
Proof.
  induction a as [|c a IH]; simpl; [reflexivity|].
  rewrite IH. now rewrite andb_assoc.
Qed.

Lemma trimStart_app (a b : string) :
  JS.trimStart (a ++ b) = if allWhite a then JS.trimStart b else JS.trimStart a ++ b.
Proof.
  induction a as [|c a IH]; simpl; [reflexivity|].
  destruct (JS.isWhiteSpace c); simpl; [exact IH | reflexivity].
Qed.

Lemma trimEnd_allWhite (s : string) : allWhite s = true -> JS.trimEnd s = "".
Proof.
  induction s as [|c s IH]; [reflexivity|]. simpl. intros H.
  apply andb_true_iff in H as [Hc H]. now rewrite (IH H), Hc.
Qed.

Lemma trimEnd_app_white (s ws : string) :
  allWhite ws = true -> JS.trimEnd (s ++ ws) = JS.trimEnd s.
Proof.
  intros W. induction s as [|c s IH]; simpl.
  - now apply trimEnd_allWhite.
  - now rewrite IH.
Qed.

Lemma trimEnd_app_keep (a b : string) :
  a <> "" -> endsWhite a = false -> JS.trimEnd (a ++ b) = a ++ JS.trimEnd b.
Proof.
  induction a as [|c a IH]; [congruence|]. intros _ He.
  destruct a as [|d a].
  - simpl in *. rewrite He. now destruct (JS.trimEnd b).
  - change (JS.trimEnd (String c (String d a ++ b)) = String c (String d a ++ JS.trimEnd b)).
    rewrite trimEnd_cons, IH by (discriminate || exact He). reflexivity.
Qed.

Lemma trim_pad (lead m trail : string) :
  allWhite lead = true -> allWhite trail = true ->
  JS.trim (lead ++ m ++ trail) = JS.trim m.
Proof.
  intros Wl Wt. unfold JS.trim. rewrite trimStart_app, Wl, trimStart_app.
  destruct (allWhite m) eqn:Wm.
  - destruct (trimStart_split trail) as (ws & Ht & _).
    rewrite trimEnd_allWhite.
    + destruct (trimStart_split m) as (ws' & Hm & _).
      symmetry. apply trimEnd_allWhite.
      rewrite Hm, allWhite_app in Wm. now apply andb_true_iff in Wm as [_ ?].
    + rewrite Ht, allWhite_app in Wt. now apply andb_true_iff in Wt as [_ ?].
  - now apply trimEnd_app_white.
Qed.

(** A message is read the same with white space added at its ends. *)
Theorem parse_ignores_outer_white_space (lead m trail : string) :
  allWhite lead = true -> allWhite trail = true ->
  parseCommand (lead ++ m ++ trail) = parseCommand m.
Proof. intros Wl Wt. unfold parseCommand. now rewrite (trim_pad lead m trail Wl Wt). Qed.

Lemma isListCommand_not_add (lower : string) :
  isListCommand lower = true -> isAddCommand lower = false.
Proof.
  intros H. destruct (isAddCommand lower) eqn:E; [|reflexivity].
  apply isAddCommand_not_list in E. congruence.
Qed.

Lemma parseAdd_is_add (t : string) :
  startsWhite t = false -> endsWhite t = false ->
  isAddCommand (JS.toLowerCase t) = true ->
  exists title dueDate, parseAdd t = CmdAdd title dueDate.
Proof.
  intros Hs He Ha.
  destruct (parseAdd_shape t Hs He Ha) as [[_ ->]|(pre & sep & post & _ & _ & _ & _ & _ & _ & _ & ->)];
    eauto.
Qed.

(** The intent is decided by the patterns alone: a message that matches
    an add pattern is always an add command (the empty-title return of
    line 55 is never taken, because the trimmed message does not end in
    white space), one that matches a list pattern is a list command, and
    the others are none. *)
Theorem parse_intent_by_pattern (m : string) :
  let lower := JS.toLowerCase (JS.trim m) in
  (parseCommand m = CmdList <-> isListCommand lower = true) /\
  ((exists title dueDate, parseCommand m = CmdAdd title dueDate)
   <-> isAddCommand lower = true) /\
  (parseCommand m = CmdNone
   <-> isListCommand lower = false /\ isAddCommand lower = false).
Proof.
  intros lower. unfold parseCommand. fold lower.
  destruct (isListCommand lower) eqn:L.
  - rewrite (isListCommand_not_add lower L).
    repeat split; try discriminate; auto.
    + intros (t & d & H). discriminate H.
    + intros [H _]. discriminate H.
  - destruct (isAddCommand lower) eqn:A.
    + destruct (parseAdd_is_add (JS.trim m) (trim_startsWhite m) (trim_endsWhite m) A)
        as (t & d & E).
      rewrite E. repeat split; try discriminate; eauto.
      intros [_ H]. discriminate H.
    + repeat split; try discriminate; auto.
      intros (t & d & H). discriminate H.
Qed.

(** "show tasks" needs no word boundary: whatever follows it, and in any
    casing, the message is a list command. *)
Theorem show_tasks_with_any_suffix (lead kw rest : string) :
  allWhite lead = true -> JS.toLowerCase kw = "show tasks" ->
  parseCommand (lead ++ kw ++ rest) = CmdList.
Proof.
  intros Wl Hk. unfold parseCommand, JS.trim.
  rewrite trimStart_app, Wl.
  assert (Hks : startsWhite kw = false /\ endsWhite kw = false /\ kw <> "").
  { destruct kw as [|c1 [|c2 [|c3 [|c4 [|c5 [|c6 [|c7 [|c8 [|c9 [|c10 [|c11 kw]]]]]]]]]]];
      try discriminate Hk.
    simpl in Hk. injection Hk as H1 _ _ _ _ _ _ _ _ H10.
    repeat split; [| |discriminate].
    - simpl. destruct c1 as [[] [] [] [] [] [] [] []]; try reflexivity; discriminate H1.
    - simpl. destruct c10 as [[] [] [] [] [] [] [] []]; try reflexivity; discriminate H10. }
  destruct Hks as (Hs & He & Hne).
  rewrite trimStart_id by (destruct kw; [congruence | exact Hs]).
  rewrite (trimEnd_app_keep kw rest Hne He), toLowerCase_app, Hk.
  assert (L : isListCommand ("show tasks" ++ JS.toLowerCase (JS.trimEnd rest)) = true).
  { unfold isListCommand, JS.startsWith. apply orb_true_iff. right.
    apply prefix_app. eauto. }
  now rewrite L.
Qed.

Lemma lowerChar_white (c : ascii) :
  JS.isWhiteSpace (JS.lowerChar c) = JS.isWhiteSpace c.
Proof. destruct c as [[] [] [] [] [] [] [] []]; reflexivity. Qed.

Lemma startsWhite_toLowerCase (s : string) :
  startsWhite (JS.toLowerCase s) = startsWhite s.
Proof. destruct s; [reflexivity | apply lowerChar_white]. Qed.

Lemma startsWhite_app (a b : string) : a <> "" -> startsWhite (a ++ b) = startsWhite a.
Proof. destruct a; [congruence | reflexivity]. Qed.

Lemma matchLiteral_None (lit s : string) :
  allPlain lit = true ->
  String.prefix lit (JS.toLowerCase s) = false -> JS.matchLiteral lit s = None.
Proof.
  intros Hp Hn. destruct (JS.matchLiteral lit s) as [r|] eqn:E; [|reflexivity].
  apply matchLiteral_Some in E as (k & -> & <-); [|exact Hp].
  rewrite toLowerCase_app in Hn.
  assert (String.prefix (JS.toLowerCase k) (JS.toLowerCase k ++ JS.toLowerCase r) = true)
    by (apply prefix_app; eauto).
  congruence.
Qed.

Lemma matchSpaces1_white (ws r : string) :
  ws <> "" -> allWhite ws = true -> startsWhite r = false ->
  JS.matchSpaces1 (ws ++ r) = Some r.
Proof.
  intros Hne W Hr. destruct ws as [|c ws]; [congruence|].
  simpl in W. apply andb_true_iff in W as [Hc W]. simpl. rewrite Hc.
  now rewrite trimStart_app, W, trimStart_id.
Qed.

Lemma keyword_shape (kw : string) :
  isKeyword kw -> kw <> "" /\ startsWhite kw = false.
Proof.
  intros Hk. assert (H : startsWhite (JS.toLowerCase kw) = false /\ JS.toLowerCase kw <> "").
  { destruct Hk as [<-|[<-|[<-|[]]]]; split; (reflexivity || discriminate). }
  destruct H as [H1 H2]. rewrite startsWhite_toLowerCase in H1. split; [|exact H1].
  intros ->. now apply H2.
Qed.

Lemma keywordTaken_isKeyword (kw message : string) :
  keywordTaken kw message -> isKeyword kw.
Proof. unfold isKeyword. intros [->|[->|[-> _]]]; simpl; auto. Qed.

(** The keyword is removed together with the white space after it. *)
Lemma removeKeyword_formatted (kw ws r : string) :
  keywordTaken kw (kw ++ ws ++ r) ->
  ws <> "" -> allWhite ws = true -> startsWhite r = false ->
  removeKeyword (kw ++ ws ++ r) = r.
Proof.
  intros Hk Hws W Hr.
  destruct (keyword_shape kw (keywordTaken_isKeyword _ _ Hk)) as [Hne Hs].
  unfold removeKeyword.
  rewrite trimStart_id by now rewrite startsWhite_app.
  assert (Hlit : forall lit, allPlain lit = true -> JS.toLowerCase kw = lit ->
                 JS.matchLiteral lit (kw ++ ws ++ r) = Some (ws ++ r)).
  { intros lit Hp E. apply matchLiteral_Some; eauto. }
  cbn [JS.matchKeyword].
  destruct Hk as [Hk|[Hk|[Hk Hn]]].
  - rewrite (Hlit "add task" eq_refl Hk), (matchSpaces1_white ws r Hws W Hr). reflexivity.
  - rewrite (matchLiteral_None "add task"), (matchLiteral_None "add"),
      (Hlit "create" eq_refl Hk), (matchSpaces1_white ws r Hws W Hr);
      try reflexivity; rewrite toLowerCase_app, Hk; reflexivity.
  - rewrite (matchLiteral_None "add task" _ eq_refl Hn),
      (Hlit "add" eq_refl Hk), (matchSpaces1_white ws r Hws W Hr). reflexivity.
Qed.

Lemma isAddCommand_formatted (kw ws x : string) :
  isKeyword kw -> isAddCommand (JS.toLowerCase (kw ++ String " " ws ++ x)) = true.
Proof.
  intros Hk. rewrite toLowerCase_app.
  change (String " " ws ++ x) with (String " " (ws ++ x)). cbn [JS.toLowerCase].
  change (JS.lowerChar " ") with " "%char.
  destruct (JS.toLowerCase (ws ++ x)); destruct Hk as [<-|[<-|[<-|[]]]]; reflexivity.
Qed.

Lemma splitIndex_none (r : string) :
  (forall j, ~ dateKeywordAt r j) -> (splitIndex r < 0)%Z.
Proof.
  intros H. destruct (Z.lt_ge_cases (splitIndex r) 0) as [|Hpos]; [assumption|].
  exfalso. exact (H _ (splitIndex_sound r Hpos)).
Qed.

Lemma splitIndex_at_last (r pre sep post : string) :
  r = pre ++ sep ++ post -> isDateKeyword sep ->
  (forall j, (String.length pre < j)%nat -> ~ dateKeywordAt r j) ->
  Z.of_nat (String.length pre) = splitIndex r.
Proof.
  intros Hr Hsep Hlast.
  assert (Hat : dateKeywordAt r (String.length pre)).
  { apply dateKeywordAt_split. exists pre, sep, post. auto. }
  pose proof (splitIndex_max _ _ Hat) as Hmax.
  pose proof (splitIndex_sound r ltac:(lia)) as Hs.
  destruct (Nat.lt_ge_cases (String.length pre) (Z.to_nat (splitIndex r))) as [Hlt|Hge];
    [|lia].
  exfalso. exact (Hlast _ Hlt Hs).
Qed.

Lemma trim_white_right (s ws : string) :
  isTrimmed s -> allWhite ws = true -> JS.trim (s ++ ws) = s.
Proof.
  intros (_ & Hs & He) W.
  rewrite <- (trim_id s Hs He) at 2. apply (trim_pad "" s ws eq_refl W).
Qed.

Lemma trim_white_left (ws s : string) :
  isTrimmed s -> allWhite ws = true -> JS.trim (ws ++ s) = s.
Proof.
  intros (_ & Hs & He) W.
  rewrite <- (trim_id s Hs He) at 2. rewrite <- (app_nil_r s) at 1.
  apply (trim_pad ws s "" W eq_refl).
Qed.

Lemma parseCommand_formatted (kw ws r : string) :
  keywordTaken kw (kw ++ String " " ws ++ r) ->
  allWhite ws = true -> isTrimmed r ->
  parseCommand (kw ++ String " " ws ++ r)
  = (let '(dueDate, remainder) := splitDueDate r in
     if (String.length (JS.trim remainder) =? 0)%nat then CmdNone
     else CmdAdd (JS.trim remainder) (orUndefined dueDate)).
Proof.
  intros Hk W (Hne & Hs & He).
  pose proof (keywordTaken_isKeyword _ _ Hk) as Hkw.
  destruct (keyword_shape kw Hkw) as [Hkne Hks].
  assert (Ht : JS.trim (kw ++ String " " ws ++ r) = kw ++ String " " ws ++ r).
  { apply trim_id.
    - now rewrite startsWhite_app.
    - rewrite endsWhite_app by (destruct r; [congruence | discriminate]).
      now rewrite endsWhite_app. }
  rewrite parseCommand_add by (rewrite Ht; now apply isAddCommand_formatted).
  rewrite Ht.
  assert (W' : allWhite (String " " ws) = true) by exact W.
  unfold parseAdd.
  now rewrite (removeKeyword_formatted kw _ r Hk ltac:(discriminate) W' Hs).
Qed.

(** Round trip without a date: keyword, a space, more white space and a
    title that holds no " by " and no " on " is read back as an add
    command with exactly that title and no dueDate. *)
Theorem parse_reads_back_title (kw ws title : string) :
  keywordTaken kw (kw ++ String " " ws ++ title) ->
  allWhite ws = true -> isTrimmed title ->
  (forall j, ~ dateKeywordAt title j) ->
  parseCommand (kw ++ String " " ws ++ title) = CmdAdd title None.
Proof.
  intros Hk W Ht Hnone. rewrite (parseCommand_formatted kw ws title Hk W Ht).
  destruct Ht as (Hne & Hs & He).
  rewrite (splitDueDate_none title (splitIndex_none title Hnone)).
  now rewrite (trim_id title Hs He), (length_eqb_0 title Hne).
Qed.

(** Round trip with a date: keyword, white space, title, white space,
    " by " or " on " in any casing, white space and a due text, where no
    " by " or " on " starts later than this one, is read back as an add
    command with exactly that title and that dueDate. *)
Theorem parse_reads_back_title_and_date (kw ws title ws2 sep ws3 due : string) :
  let remainder := title ++ ws2 ++ sep ++ ws3 ++ due in
  keywordTaken kw (kw ++ String " " ws ++ remainder) ->
  allWhite ws = true -> allWhite ws2 = true -> allWhite ws3 = true ->
  isTrimmed title -> isTrimmed due -> isDateKeyword sep ->
  (forall j, (String.length (title ++ ws2) < j)%nat -> ~ dateKeywordAt remainder j) ->
  parseCommand (kw ++ String " " ws ++ remainder) = CmdAdd title (Some due).
Proof.
  intros remainder Hk W W2 W3 Ht Hd Hsep Hlast.
  assert (Hr : remainder = (title ++ ws2) ++ sep ++ (ws3 ++ due))
    by (unfold remainder; now rewrite !app_assoc).
  assert (Htr : isTrimmed remainder).
  { destruct Ht as (Hne & Hs & He), Hd as (Hdne & Hds & Hde). unfold remainder.
    repeat split.
    - destruct title; [congruence | discriminate].
    - now rewrite startsWhite_app.
    - rewrite <- !app_assoc. now rewrite endsWhite_app. }
  rewrite (parseCommand_formatted kw ws remainder Hk W Htr).
  rewrite (splitDueDate_found remainder (title ++ ws2) sep (ws3 ++ due) Hr Hsep
             (splitIndex_at_last remainder _ sep _ Hr Hsep Hlast)).
  rewrite trim_trim, (trim_white_right title ws2 Ht W2), (trim_white_left ws3 due Hd W3).
  destruct Ht as (Hne & _), Hd as (Hdne & _).
  now rewrite (length_eqb_0 title Hne), (orUndefined_Some due Hdne).
Qed.

Lemma endsWhite_toLowerCase (s : string) :
  endsWhite (JS.toLowerCase s) = endsWhite s.
Proof.
  induction s as [|c s IH]; [reflexivity|].
  destruct s as [|d s]; [apply lowerChar_white | exact IH].
Qed.

Lemma isAddCommand_without_space (lit : string) (c : ascii) (y : string) :
  lit = "add" \/ lit = "create" -> c <> " "%char ->
  isAddCommand (lit ++ String c y) = false.
Proof.
  intros Hl Hc. destruct (isAddCommand (lit ++ String c y)) eqn:E; [|reflexivity].
  exfalso. apply isAddCommand_prefix in E as (k & Hin & Hpre).
  apply prefix_app in Hpre as [t Ht].
  destruct Hl as [-> | ->]; destruct Hin as [<-|[<-|[<-|[]]]];
    cbv [String.append] in Ht; try discriminate Ht;
    injection Ht as ->; now apply Hc.
Qed.

(** The add patterns of line 37 ask for a space (U+0020) after "add" and
    "create", although the regular expression of line 39 would take any
    white space: with another character there (a tab, a no-break space,
    a line break, a letter) the message is no command at all. *)
Theorem keyword_needs_a_space (kw : string) (c : ascii) (rest : string) :
  JS.toLowerCase kw = "add" \/ JS.toLowerCase kw = "create" ->
  c <> " "%char ->
  parseCommand (kw ++ String c rest) = CmdNone.
Proof.
  intros Hk Hc.
  assert (Hshape : kw <> "" /\ startsWhite kw = false /\ endsWhite kw = false).
  { rewrite <- startsWhite_toLowerCase, <- endsWhite_toLowerCase.
    destruct Hk as [Hk|Hk]; rewrite Hk; repeat split; try reflexivity;
      intros ->; discriminate Hk. }
  destruct Hshape as (Hne & Hs & He).
  assert (Hc' : JS.lowerChar c <> " "%char).
  { intros E. now apply lowerChar_space in E. }
  unfold parseCommand, JS.trim.
  rewrite trimStart_id by now rewrite startsWhite_app.
  rewrite (trimEnd_app_keep kw _ Hne He), toLowerCase_app, trimEnd_cons.
  set (lit := JS.toLowerCase kw) in *.
  assert (Hlit : lit = "add" \/ lit = "create") by exact Hk.
  destruct (JS.trimEnd rest) as [|d t]; [destruct (JS.isWhiteSpace c)|].
  - rewrite app_nil_r. destruct Hlit as [-> | ->]; reflexivity.
  - cbn [JS.toLowerCase]. rewrite (isAddCommand_without_space lit _ "" Hlit Hc').
    destruct Hlit as [-> | ->]; reflexivity.
  - cbn [JS.toLowerCase]. rewrite (isAddCommand_without_space lit _ _ Hlit Hc').
    destruct Hlit as [-> | ->]; reflexivity.
Qed.


(** ** More about the store *)

Section StoreCases.

Variable P : Platform.

(** What a request to the store can do: store one task and answer 201,
    throw after the read, answer the list, or answer 404. *)
Lemma TaskManager_fetch_cases (self : string) (env : Env) (request : Request) (w : World) :
  let isAdd := String.eqb (method request) "POST"
               && JS.endsWith (pathname P (url request)) "/add" in
  let isList := String.eqb (method request) "GET"
                && JS.endsWith (pathname P (url request)) "/list" in
  TaskManager_fetch P self env request w =
  if isAdd then
    match requestBody request with
    | BodyJson JNull => (Throw TypeError, afterRead self w)
    | BodyJson v =>
        match taskOfBody env v with
        | Some task =>
            (Ret (mkResponse 201 jsonHeaders (BodyJson (taskToJson task))),
             afterAdd self task w)
        | None => (Throw TypeError, afterRead self w)
        end
    | _ => (Throw SyntaxError, afterRead self w)
    end
  else if isList then
    (Ret (mkResponse 200 jsonHeaders (BodyJson (JArr (map taskToJson (tasksOf w self))))),
     afterRead self w)
  else (Ret notFound, afterRead self w).
Proof.
  intros isAdd isList. subst isAdd isList.
  unfold TaskManager_fetch, bind, storageGet, storagePut, emit, toStringM.
  cbn -[toString truthy taskToJson].
  destruct (_ && _).
  - destruct (requestBody request) as [|t|[]]; try reflexivity.
    unfold taskOfBody, textIfTruthy. cbn -[toString truthy taskToJson].
    destruct (toString (lookupField fields "title")); [|reflexivity].
    destruct (truthy (lookupField fields "dueDate")); [|reflexivity].
    destruct (toString (lookupField fields "dueDate")); reflexivity.
  - destruct (_ && _); reflexivity.
Qed.

Lemma tasksOf_afterRead (self k : string) (w : World) :
  tasksOf (afterRead self w) k = tasksOf w k.
Proof. reflexivity. Qed.

Lemma tasksOf_afterAdd (self k : string) (task : Task) (w : World) :
  tasksOf (afterAdd self task w) k
  = if decide (self = k) then (tasksOf w k ++ [task])%list else tasksOf w k.
Proof.
  unfold afterAdd. destruct (decide (self = k)) as [<-|Hne].
  - apply tasksOf_insert.
  - unfold tasksOf. simpl. now rewrite lookup_insert_ne.
Qed.

Lemma extendsTasks_refl (w : World) : extendsTasks w w.
Proof. intros k. exists []. now rewrite List.app_nil_r. Qed.

Lemma extendsTasks_trans (w1 w2 w3 : World) :
  extendsTasks w1 w2 -> extendsTasks w2 w3 -> extendsTasks w1 w3.
Proof.
  intros H1 H2 k. destruct (H1 k) as [a Ha], (H2 k) as [b Hb].
  exists (a ++ b)%list. now rewrite Hb, Ha, List.app_assoc.
Qed.

Lemma extendsTasks_afterRead (self : string) (w : World) :
  extendsTasks w (afterRead self w).
Proof. intros k. exists []. now rewrite List.app_nil_r. Qed.

Lemma extendsTasks_afterAdd (self : string) (task : Task) (w : World) :
  extendsTasks w (afterAdd self task w).
Proof.
  intros k. rewrite tasksOf_afterAdd. destruct (decide (self = k)).
  - now exists [task].
  - exists []. now rewrite List.app_nil_r.
Qed.

Lemma TaskManager_fetch_world (self : string) (env : Env) (request : Request) (w : World) :
  snd (TaskManager_fetch P self env request w) = afterRead self w \/
  exists task, snd (TaskManager_fetch P self env request w) = afterAdd self task w.
Proof.
  rewrite TaskManager_fetch_cases.
  destruct (_ && _).
  - destruct (requestBody request) as [|t|v]; simpl; eauto.
    destruct v; try destruct (taskOfBody env _); simpl; eauto.
  - destruct (_ && _); simpl; eauto.
Qed.

End StoreCases.

(** A POST to /add whose body cannot be read (no body, text that is no
    JSON, or the JSON null) makes the store throw after its read, and
    nothing is stored. *)
Theorem store_add_unreadable_body (P : Platform) (self : string) (env : Env)
    (u : string) (b : Body) (w : World) :
  JS.endsWith (pathname P u) "/add" = true ->
  b = NoBody \/ (exists t, b = BodyText t) \/ b = BodyJson JNull ->
  (exists e, fst (TaskManager_fetch P self env (mkRequest "POST" u b) w) = Throw e) /\
  objects (snd (TaskManager_fetch P self env (mkRequest "POST" u b) w)) = objects w.
Proof.
  intros H Hb. rewrite TaskManager_fetch_cases. simpl. rewrite H.
  destruct Hb as [->|[[t ->]| ->]]; simpl; eauto.
Qed.

(** A POST to /add whose JSON body is not an object (a number, a string,
    a boolean, an array) is not refused: it stores a task titled
    "undefined" with no dueDate and answers 201. *)
Theorem store_add_primitive_body (P : Platform) (self : string) (env : Env)
    (u : string) (v : json) (w : World) :
  JS.endsWith (pathname P u) "/add" = true ->
  v <> JNull -> (forall fields, v <> JObj fields) ->
  let task := mkTask (randomUUID env) "undefined" None (nowISO env) in
  fst (TaskManager_fetch P self env (mkRequest "POST" u (BodyJson v)) w)
  = Ret (mkResponse 201 jsonHeaders (BodyJson (taskToJson task))) /\
  tasksOf (snd (TaskManager_fetch P self env (mkRequest "POST" u (BodyJson v)) w)) self
  = (tasksOf w self ++ [task])%list.
Proof.
  intros H Hn Ho task. rewrite TaskManager_fetch_cases. simpl. rewrite H.
  destruct v; try congruence; try (exfalso; now apply (Ho fields)); simpl;
    split; try reflexivity; now rewrite tasksOf_afterAdd, decide_True by reflexivity.
Qed.

(** Only POST to a path ending in /add writes: every other request
    leaves the storage of every object as it was, and is answered with
    the list (GET to a path ending in /list) or with 404. *)
Theorem store_other_requests_write_nothing (P : Platform) (self : string) (env : Env)
    (request : Request) (w : World) :
  String.eqb (method request) "POST" && JS.endsWith (pathname P (url request)) "/add" = false ->
  objects (snd (TaskManager_fetch P self env request w)) = objects w /\
  fst (TaskManager_fetch P self env request w)
  = Ret (if String.eqb (method request) "GET"
            && JS.endsWith (pathname P (url request)) "/list"
         then mkResponse 200 jsonHeaders (BodyJson (JArr (map taskToJson (tasksOf w self))))
         else notFound).
Proof.
  intros H. rewrite TaskManager_fetch_cases. cbv zeta. rewrite H.
  destruct (String.eqb (method request) "GET" && _); split; reflexivity.
Qed.

(** ** More about the handler *)

Section HandlerCases.

Variable P : Platform.

Lemma parseCommand_due_not_empty (m t : string) (d : option string) :
  parseCommand m = CmdAdd t d -> d <> Some "".
Proof.
  intros H. apply parseCommand_CmdAdd in H as [_ H]. unfold parseAdd in H.
  destruct (splitDueDate _) as [dd r]. destruct (_ =? _)%nat; [discriminate|].
  injection H as _ <-. destruct dd as [[|c s]|]; discriminate.
Qed.

Lemma taskLine_task (idx : nat) (t : Task) (w : World) :
  taskLine idx (taskToJson t) w = (Ret (listLine idx t), w).
Proof. destruct t as [i ti [[|c d]|] cr]; reflexivity. Qed.

Lemma taskLines_tasks (idx : nat) (l : list Task) (w : World) :
  taskLines idx (map taskToJson l) w = (Ret (listLines idx l), w).
Proof.
  revert idx; induction l as [|t l IH]; intros idx; [reflexivity|].
  cbn [map taskLines listLines]. unfold bind at 1. rewrite taskLine_task.
  unfold bind at 1. now rewrite IH.
Qed.

Lemma listReply_tasks (l : list Task) (w : World) :
  listReply (JArr (map taskToJson l)) w = (Ret (listText l), w).
Proof.
  destruct l as [|t l]; [reflexivity|].
  change (map taskToJson (t :: l)) with (taskToJson t :: map taskToJson l).
  unfold listReply, bind.
  change (taskToJson t :: map taskToJson l) with (map taskToJson (t :: l)).
  now rewrite taskLines_tasks.
Qed.

(** The add request the handler sends never makes the store throw. *)
Lemma respond_add (env : Env) (userId message t : string) (d : option string) (w : World) :
  parseCommand message = CmdAdd t d ->
  respond P env userId message w =
  (Ret (replyResponse 200 [("reply", JStr (addedText t d))]),
   if JS.endsWith (pathname P ("https://task/" ++ userId ++ "/add")) "/add"
   then afterAdd (idFromName P userId) (mkTask (randomUUID env) t d (nowISO env)) w
   else afterRead (idFromName P userId) w).
Proof.
  intros Hc. pose proof (parseCommand_due_not_empty _ _ _ Hc) as Hd.
  unfold respond. rewrite Hc. unfold bind. rewrite TaskManager_fetch_cases.
  cbn [method url requestBody String.eqb Ascii.eqb Bool.eqb andb].
  destruct (JS.endsWith _ "/add"); destruct d as [[|c s]|]; try congruence; reflexivity.
Qed.

Lemma respond_list (env : Env) (userId message : string) (w : World) :
  parseCommand message = CmdList ->
  respond P env userId message w =
  if JS.endsWith (pathname P ("https://task/" ++ userId ++ "/list")) "/list"
  then (Ret (replyResponse 200
               [("reply", JStr (listText (tasksOf w (idFromName P userId))));
                ("tasks", JArr (map taskToJson (tasksOf w (idFromName P userId))))]),
        afterRead (idFromName P userId) w)
  else (Throw SyntaxError, afterRead (idFromName P userId) w).
Proof.
  intros Hc. unfold respond. rewrite Hc. unfold bind at 1.
  rewrite TaskManager_fetch_cases.
  cbn [method url requestBody String.eqb Ascii.eqb Bool.eqb andb].
  destruct (JS.endsWith _ "/list"); [|reflexivity].
  unfold bind, bodyJson, ret. cbn [responseBody]. now rewrite listReply_tasks.
Qed.

Lemma extractReply_pure (result : jsval) :
  exists o, forall w, extractReply P result w = (o, w).
Proof. destruct result as [[]|]; eexists; intros w; reflexivity. Qed.

Lemma respond_none (env : Env) (userId message : string) (w : World) :
  parseCommand message = CmdNone ->
  respond P env userId message w =
  match AI_run env model [("system", SYSTEM_PROMPT P); ("user", message)] with
  | AiThrows _ =>
      (Ret (replyResponse 503 [("reply", JStr unavailable)]), afterModelFailure w)
  | AiReturns result =>
      match fst (extractReply P result w) with
      | Ret reply => (Ret (replyResponse 200 [("reply", reply)]), afterModel w)
      | Throw _ =>
          (Ret (replyResponse 503 [("reply", JStr unavailable)]), afterModelFailure w)
      end
  end.
Proof.
  intros Hc. unfold respond. rewrite Hc. unfold aiRun.
  destruct (AI_run env model _) as [e|result]; [reflexivity|].
  destruct (extractReply_pure result) as [o Ho].
  unfold tryCatch, bind, emit, ret. cbn beta iota zeta.
  rewrite !Ho. destruct o; reflexivity.
Qed.

Lemma hasStringFields_true (b : Body) :
  hasStringFields b = true ->
  exists v userId message,
    b = BodyJson v /\ getProp v "userId" = Some (JStr userId) /\
    getProp v "message" = Some (JStr message).
Proof.
  unfold hasStringFields. destruct b as [|t|v]; try discriminate.
  destruct (getProp v "userId") as [[]|] eqn:Hu; try discriminate.
  destruct (getProp v "message") as [[]|] eqn:Hm; try discriminate.
  intros _. do 3 eexists. eauto.
Qed.

Lemma fetch_valid (env : Env) (request : Request) (v : json) (userId message : string)
    (w : World) :
  pathname P (url request) = "/api/chat" -> method request = "POST" ->
  requestBody request = BodyJson v ->
  getProp v "userId" = Some (JStr userId) ->
  getProp v "message" = Some (JStr message) ->
  fetch P env request w = caught (respond P env userId message w).
Proof.
  intros Hp Hm Hb Hu Hmsg. rewrite (fetch_chat P env request Hp Hm). unfold tryCatch.
  rewrite (chat_valid P env request v userId w Hb Hu), Hmsg.
  unfold caught. destruct (respond P env userId message w) as [[r|e] w']; reflexivity.
Qed.

(** Every request either changes nothing and is answered 200 (the page),
    400 or 404, or is a chat request with string fields and does what
    [respond] does, with an exception turned into 400. *)
Lemma fetch_cases (env : Env) (request : Request) (w : World) :
  (exists r, fetch P env request w = (Ret r, w) /\
             (status r = 200 \/ status r = 400 \/ status r = 404)%Z) \/
  (exists userId message,
     fetch P env request w = caught (respond P env userId message w)).
Proof.
  destruct (String.eqb (pathname P (url request)) "/" && String.eqb (method request) "GET")
    eqn:Hhtml.
  { left. unfold fetch. rewrite Hhtml. eexists. split; [reflexivity | simpl; auto]. }
  destruct (String.eqb (pathname P (url request)) "/api/chat"
            && String.eqb (method request) "POST") eqn:Hchat.
  2:{ left. unfold fetch. rewrite Hhtml, Hchat. eexists. split; [reflexivity | simpl; auto]. }
  apply andb_true_iff in Hchat as [Hp Hm].
  apply String.eqb_eq in Hp, Hm.
  destruct (hasStringFields (requestBody request)) eqn:Hf.
  - right. apply hasStringFields_true in Hf as (v & u & m & Hb & Hu & Hmsg).
    exists u, m. now apply (fetch_valid env request v).
  - left. rewrite (fetch_chat P env request Hp Hm). unfold tryCatch.
    destruct (chat_malformed P env request w Hf) as [->|[e ->]];
      eexists; (split; [reflexivity | simpl; auto]).
Qed.

(** What [respond] can do. *)
Lemma respond_cases (env : Env) (userId message : string) (w : World) :
  let k := idFromName P userId in
  exists o w', respond P env userId message w = (o, w') /\
    (((w' = afterRead k w \/ exists task, w' = afterAdd k task w) /\
      (o = Throw SyntaxError \/ exists r, o = Ret r /\ status r = 200%Z)) \/
     (w' = afterModel w /\ exists r, o = Ret r /\ status r = 200%Z) \/
     (w' = afterModelFailure w /\ exists r, o = Ret r /\ status r = 503%Z)).
Proof.
  intros k. destruct (parseCommand message) as [t d| |] eqn:Hc.
  - rewrite (respond_add env userId message t d w Hc).
    do 2 eexists. split; [reflexivity|]. left. split; [|right; eauto].
    destruct (JS.endsWith _ _); eauto.
  - rewrite (respond_list env userId message w Hc).
    destruct (JS.endsWith _ _); do 2 eexists; (split; [reflexivity|]); left;
      split; eauto.
  - rewrite (respond_none env userId message w Hc).
    destruct (AI_run _ _ _) as [e|result].
    + do 2 eexists. split; [reflexivity|]. right. right. eauto.
    + destruct (fst (extractReply P result w)); do 2 eexists;
        (split; [reflexivity|]); right; [left | right]; eauto.
Qed.

Lemma caught_world (r : Outcome Response * World) : snd (caught r) = snd r.
Proof. destruct r as [[?|?] ?]; reflexivity. Qed.

Lemma extendsTasks_same_objects (w w' : World) :
  objects w' = objects w -> extendsTasks w w'.
Proof. intros H k. exists []. unfold tasksOf. now rewrite H, List.app_nil_r. Qed.

Lemma fetch_extendsTasks (env : Env) (request : Request) (w : World) :
  extendsTasks w (snd (fetch P env request w)).
Proof.
  destruct (fetch_cases env request w) as [(r & -> & _)|(u & m & ->)].
  - apply extendsTasks_refl.
  - rewrite caught_world.
    destruct (respond_cases env u m w) as (o & w' & -> & H). simpl.
    destruct H as [[[->|[task ->]] _]|[[-> _]|[-> _]]].
    + apply extendsTasks_afterRead.
    + apply extendsTasks_afterAdd.
    + now apply extendsTasks_same_objects.
    + now apply extendsTasks_same_objects.
Qed.

End HandlerCases.

(** ** Further properties of the request handler *)

(** Whatever requests the Worker handles, in whatever order, the tasks
    an object holds stay where they are: the list afterwards is the list
    before with tasks added at its end.  No request changes or removes a
    stored task. *)
Theorem tasks_are_append_only (P : Platform) (calls : list (Env * Request))
    (w : World) (k : string) :
  exists added, tasksOf (runRequests P calls w) k = (tasksOf w k ++ added)%list.
Proof.
  assert (H : extendsTasks w (runRequests P calls w)).
  { revert w. induction calls as [|[env request] calls IH]; intros w; simpl.
    - apply extendsTasks_refl.
    - eapply extendsTasks_trans; [apply fetch_extendsTasks | apply IH]. }
  apply H.
Qed.

(** The Worker answers every request: no exception leaves [fetch], and
    the status is 200, 400, 404 or 503. *)
Theorem fetch_always_answers (P : Platform) (env : Env) (request : Request) (w : World) :
  exists response,
    fst (fetch P env request w) = Ret response /\
    (status response = 200 \/ status response = 400 \/
     status response = 404 \/ status response = 503)%Z.
Proof.
  destruct (fetch_cases P env request w) as [(r & -> & H)|(u & m & ->)].
  - exists r. split; [reflexivity|]. tauto.
  - destruct (respond_cases P env u m w) as (o & w' & -> & H). unfold caught.
    destruct H as [[_ [->|(r & -> & Hr)]]|[[_ (r & -> & Hr)]|[_ (r & -> & Hr)]]];
      eexists; (split; [reflexivity|]); simpl; auto.
Qed.

(** One request makes at most one storage read, at most one storage
    write (after the read, on the same object) and at most one model
    call, and never a model call together with a storage access. *)
Theorem request_effects_bounded (P : Platform) (env : Env) (request : Request) (w : World) :
  exists evs,
    events (snd (fetch P env request w)) = (events w ++ evs)%list /\ requestEvents evs.
Proof.
  unfold requestEvents.
  destruct (fetch_cases P env request w) as [(r & -> & _)|(u & m & ->)].
  - exists []. split; [now rewrite List.app_nil_r | auto].
  - rewrite caught_world.
    destruct (respond_cases P env u m w) as (o & w' & -> & H). simpl.
    destruct H as [[[->|[task ->]] _]|[[-> _]|[-> _]]]; simpl.
    + eexists. split; [reflexivity|]. eauto.
    + eexists. split; [now rewrite <- List.app_assoc|]. simpl. eauto 6.
    + eexists. split; [reflexivity|]. auto.
    + eexists. split; [now rewrite <- List.app_assoc|]. simpl. auto 6.
Qed.

(** The user identifier is put into the store URL as it is.  When the
    pathname of that URL does not end in /add (a question mark or a hash
    in the identifier ends the path), the store answers the add request
    with 404 and stores nothing, and the handler, which does not look at
    that answer, still replies 200 with the text "Added task ...": the
    request has read the store once and written nothing. *)
Theorem add_acknowledged_but_not_stored (P : Platform) (env : Env) (u userId message : string)
    (t : string) (d : option string) (w : World) :
  pathname P u = "/api/chat" ->
  parseCommand message = CmdAdd t d ->
  JS.endsWith (pathname P ("https://task/" ++ userId ++ "/add")) "/add" = false ->
  let result := fetch P env (chatRequest u userId message) w in
  fst result
  = Ret (replyResponse 200
           [("reply", JStr ("Added task " ++ quote ++ t ++ quote
                            ++ match d with
                               | Some due => " due by " ++ due
                               | None => ""
                               end
                            ++ "."))]) /\
  fst (TaskManager_fetch P (idFromName P userId) env
         (mkRequest "POST" ("https://task/" ++ userId ++ "/add") (addBody t d)) w)
  = Ret (mkResponse 404 textHeaders (BodyText "Not found")) /\
  snd result = afterRead (idFromName P userId) w /\
  (forall k, tasksOf (snd result) k = tasksOf w k).
Proof.
  intros Hp Hc Hu result. subst result.
  rewrite (fetch_valid P env (chatRequest u userId message) _ userId message w
             Hp eq_refl eq_refl eq_refl eq_refl).
  rewrite (respond_add P env userId message t d w Hc), Hu.
  rewrite (TaskManager_fetch_post_elsewhere P _ env _ _ w Hu).
  repeat split.
Qed.

(** An add command through the chat endpoint: the store of the user gets
    exactly one new task at the end of its list, with the title and
    dueDate the parser found, and the reply quotes the title and, when
    there is one, the due date. *)
Theorem chat_add_end_to_end (P : Platform) (env : Env) (u userId message t : string)
    (d : option string) (w : World) :
  pathname P u = "/api/chat" ->
  parseCommand message = CmdAdd t d ->
  JS.endsWith (pathname P ("https://task/" ++ userId ++ "/add")) "/add" = true ->
  let result := fetch P env (chatRequest u userId message) w in
  fst result = Ret (replyResponse 200 [("reply", JStr (addedText t d))]) /\
  tasksOf (snd result) (idFromName P userId)
  = (tasksOf w (idFromName P userId) ++ [mkTask (randomUUID env) t d (nowISO env)])%list /\
  (forall k, k <> idFromName P userId -> tasksOf (snd result) k = tasksOf w k).
Proof.
  intros Hp Hc Hu result. subst result.
  rewrite (fetch_valid P env (chatRequest u userId message) _ userId message w
             Hp eq_refl eq_refl eq_refl eq_refl).
  rewrite (respond_add P env userId message t d w Hc), Hu. simpl.
  repeat split.
  - now rewrite tasksOf_afterAdd, decide_True.
  - intros k Hk. rewrite tasksOf_afterAdd, decide_False; auto.
Qed.

(** A list command through the chat endpoint: the reply has one line per
    stored task, in list order, numbered from 1, "<n>. <title>" with
    " (due <dueDate>)" when the task has a due date, or is the fixed no
    tasks text; the tasks come with it; nothing is written. *)
Theorem chat_list_end_to_end (P : Platform) (env : Env) (u userId message : string)
    (w : World) :
  pathname P u = "/api/chat" ->
  parseCommand message = CmdList ->
  JS.endsWith (pathname P ("https://task/" ++ userId ++ "/list")) "/list" = true ->
  let tasks := tasksOf w (idFromName P userId) in
  let result := fetch P env (chatRequest u userId message) w in
  fst result = Ret (replyResponse 200 [("reply", JStr (listText tasks));
                                       ("tasks", JArr (map taskToJson tasks))]) /\
  objects (snd result) = objects w.
Proof.
  intros Hp Hc Hu tasks result. subst result tasks.
  rewrite (fetch_valid P env (chatRequest u userId message) _ userId message w
             Hp eq_refl eq_refl eq_refl eq_refl).
  rewrite (respond_list P env userId message w Hc), Hu. split; reflexivity.
Qed.

(** A list command for a user whose list URL has a pathname that does
    not end in /list (the identifier is put into the URL unescaped): the
    store answers 404 with a text body, reading it as JSON throws, and
    the request is answered 400 Bad Request. *)
Theorem chat_list_unroutable_user (P : Platform) (env : Env) (u userId message : string)
    (w : World) :
  pathname P u = "/api/chat" ->
  parseCommand message = CmdList ->
  JS.endsWith (pathname P ("https://task/" ++ userId ++ "/list")) "/list" = false ->
  fetch P env (chatRequest u userId message) w
  = (Ret badRequest, afterRead (idFromName P userId) w).
Proof.
  intros Hp Hc Hu.
  rewrite (fetch_valid P env (chatRequest u userId message) _ userId message w
             Hp eq_refl eq_refl eq_refl eq_refl).
  now rewrite (respond_list P env userId message w Hc), Hu.
Qed.

(** The reply taken from a model result, by priority: a string result is
    the reply; otherwise a response property that is not null; otherwise
    choices[0].message.content when it is not null; otherwise the
    JSON text of the whole result. *)
Theorem model_reply_by_shape (P : Platform) (env : Env) (u userId message : string)
    (result : json) (w : World) :
  pathname P u = "/api/chat" ->
  parseCommand message = CmdNone ->
  AI_run env model [("system", SYSTEM_PROMPT P); ("user", message)]
  = AiReturns (Some result) ->
  let reply r :=
    fetch P env (chatRequest u userId message) w
    = (Ret (replyResponse 200 [("reply", r)]), afterModel w) in
  (forall s, result = JStr s -> reply (JStr s)) /\
  (forall fields v,
     result = JObj fields -> lookupField fields "response" = Some v -> v <> JNull ->
     reply v) /\
  (forall fields c rest mf v,
     result = JObj fields ->
     isNullish (lookupField fields "response") = true ->
     lookupField fields "choices" = Some (JArr (JObj c :: rest)) ->
     lookupField c "message" = Some (JObj mf) ->
     lookupField mf "content" = Some v -> v <> JNull ->
     reply v) /\
  (result <> JNull -> (forall s, result <> JStr s) ->
   isNullish (getProp result "response") = true ->
   isNullish (getProp result "choices") = true ->
   reply (JStr (stringify P result))).
Proof.
  intros Hp Hc Ha reply. subst reply. cbv beta.
  rewrite (fetch_valid P env (chatRequest u userId message) _ userId message w
             Hp eq_refl eq_refl eq_refl eq_refl).
  rewrite (respond_none P env userId message w Hc), Ha.
  repeat split.
  - intros s ->. reflexivity.
  - intros fields v -> Hr Hv. simpl. rewrite Hr. destruct v; try congruence; reflexivity.
  - intros fields c rest mf v -> Hr Hch Hm Hcont Hv. simpl.
    rewrite Hch. simpl. rewrite Hm. simpl. rewrite Hcont.
    destruct (lookupField fields "response") as [[]|]; try discriminate Hr;
      destruct v; try congruence; reflexivity.
  - intros Hn Hs Hr Hch.
    destruct result as [|b|n|s|items|fields]; try congruence; try reflexivity;
      try (exfalso; now apply (Hs s)).
    simpl in *.
    destruct (lookupField fields "response") as [[]|]; try discriminate Hr;
      destruct (lookupField fields "choices") as [[]|]; try discriminate Hch;
      reflexivity.
Qed.

(** A model call that returns null or undefined instead of throwing is
    handled like a failure: reading [result.response] throws inside the
    try block, and the request is answered 503 with the unavailability
    text. *)
Theorem model_null_result_is_unavailable (P : Platform) (env : Env)
    (u userId message : string) (result : jsval) (w : World) :
  pathname P u = "/api/chat" ->
  parseCommand message = CmdNone ->
  AI_run env model [("system", SYSTEM_PROMPT P); ("user", message)] = AiReturns result ->
  result = None \/ result = Some JNull ->
  fetch P env (chatRequest u userId message) w
  = (Ret (replyResponse 503 [("reply", JStr unavailable)]), afterModelFailure w).
Proof.
  intros Hp Hc Ha Hr.
  rewrite (fetch_valid P env (chatRequest u userId message) _ userId message w
             Hp eq_refl eq_refl eq_refl eq_refl).
  rewrite (respond_none P env userId message w Hc), Ha.
  destruct Hr as [-> | ->]; reflexivity.
Qed.

(** ** The workflow *)

(** The workflow makes exactly one model call and no storage access, and
    has no catch: an error of the model call leaves it as it is. *)
Theorem workflow_effects (P : Platform) (env : Env) (message userId : string) (w : World) :
  snd (TaskWorkflow P env message userId w) = afterModel w /\
  (forall e,
     AI_run env model [("system", SYSTEM_PROMPT P); ("user", message)] = AiThrows e ->
     fst (TaskWorkflow P env message userId w) = Throw e).
Proof.
  unfold TaskWorkflow, aiRun. split.
  - destruct (AI_run _ _ _) as [e|result]; [reflexivity|].
    destruct (extractReply_pure P result) as [o Ho].
    unfold bind, emit, ret. cbn beta iota zeta. rewrite Ho. now destruct o.
  - intros e ->. reflexivity.
Qed.

(** For a message that is no command the Worker answers what the
    workflow returns: the same { reply } with status 200 when the
    workflow returns, and 503 with the unavailability text when the
    workflow throws. *)
Theorem worker_answers_as_workflow (P : Platform) (env : Env) (u userId message : string)
    (w : World) :
  pathname P u = "/api/chat" ->
  parseCommand message = CmdNone ->
  fst (fetch P env (chatRequest u userId message) w)
  = match fst (TaskWorkflow P env message userId w) with
    | Ret body => Ret (mkResponse 200 jsonHeaders (BodyJson body))
    | Throw _ => Ret (replyResponse 503 [("reply", JStr unavailable)])
    end.
Proof.
  intros Hp Hc.
  rewrite (fetch_valid P env (chatRequest u userId message) _ userId message w
             Hp eq_refl eq_refl eq_refl eq_refl).
  rewrite (respond_none P env userId message w Hc).
  unfold TaskWorkflow, aiRun.
  destruct (AI_run _ _ _) as [e|result]; [reflexivity|].
  destruct (extractReply_pure P result) as [o Ho].
  unfold bind, emit, ret. cbn beta iota zeta. rewrite !Ho. now destruct o.
Qed.

(** ** The further properties at concrete inputs *)

Lemma parse_ignores_outer_white_space_witness :
  parseCommand ("  " ++ "Add buy milk" ++ " ") = parseCommand "Add buy milk".
Proof. apply parse_ignores_outer_white_space; reflexivity. Defined.

Lemma show_tasks_with_any_suffix_witness :
  parseCommand (" " ++ "SHOW Tasks" ++ "please") = CmdList.
Proof. apply show_tasks_with_any_suffix; reflexivity. Defined.

Lemma parse_reads_back_title_witness :
  parseCommand ("Create" ++ String " " " " ++ "finish the report")
  = CmdAdd "finish the report" None.
Proof.
  apply parse_reads_back_title.
  - right. left. reflexivity.
  - reflexivity.
  - repeat split; (discriminate || reflexivity).
  - intros j H. apply splitIndex_max in H.
    change (Z.of_nat j <= -1)%Z in H. lia.
Defined.

Lemma parse_reads_back_title_and_date_witness :
  parseCommand ("add" ++ String " " "" ++ "Call Bob" ++ " " ++ " ON " ++ "" ++ "Monday 5pm")
  = CmdAdd "Call Bob" (Some "Monday 5pm").
Proof.
  apply (parse_reads_back_title_and_date "add" "" "Call Bob" " " " ON " "" "Monday 5pm").
  - right. right. split; reflexivity.
  - reflexivity.
  - reflexivity.
  - reflexivity.
  - repeat split; (discriminate || reflexivity).
  - repeat split; (discriminate || reflexivity).
  - right. reflexivity.
  - intros j Hj H. apply splitIndex_max in H.
    change (Z.of_nat j <= 9)%Z in H. simpl in Hj. lia.
Defined.

Lemma keyword_needs_a_space_witness :
  parseCommand ("add" ++ String "009" "buy milk") = CmdNone.
Proof. apply keyword_needs_a_space; [left; reflexivity | discriminate]. Defined.

Lemma store_add_unreadable_body_witness :
  (exists e,
     fst (TaskManager_fetch examplePlatform "id:alice" failingEnv
            (mkRequest "POST" "https://task/alice/add" (BodyText "oops")) emptyWorld)
     = Throw e) /\
  objects (snd (TaskManager_fetch examplePlatform "id:alice" failingEnv
                  (mkRequest "POST" "https://task/alice/add" (BodyText "oops")) emptyWorld))
  = objects emptyWorld.
Proof.
  apply store_add_unreadable_body; [reflexivity | right; left; eauto].
Defined.

Lemma store_add_primitive_body_witness :
  fst (TaskManager_fetch examplePlatform "id:alice" failingEnv
         (mkRequest "POST" "https://task/alice/add" (BodyJson (JNum "5"))) emptyWorld)
  = Ret (mkResponse 201 jsonHeaders
           (BodyJson (taskToJson
              (mkTask (randomUUID failingEnv) "undefined" None (nowISO failingEnv))))).
Proof.
  apply (store_add_primitive_body examplePlatform "id:alice" failingEnv
           "https://task/alice/add" (JNum "5") emptyWorld);
    [reflexivity | discriminate | discriminate].
Defined.

Lemma store_other_requests_write_nothing_witness :
  objects (snd (TaskManager_fetch examplePlatform "id:alice" failingEnv
                  (mkRequest "DELETE" "https://task/alice/add" NoBody) emptyWorld))
  = objects emptyWorld.
Proof.
  apply (store_other_requests_write_nothing examplePlatform "id:alice" failingEnv
           (mkRequest "DELETE" "https://task/alice/add" NoBody) emptyWorld).
  reflexivity.
Defined.

Lemma chat_add_end_to_end_witness :
  fst (fetch examplePlatform failingEnv
         (chatRequest workerUrl "alice" "add buy milk by Friday") emptyWorld)
  = Ret (replyResponse 200 [("reply", JStr (addedText "buy milk" (Some "Friday")))]).
Proof.
  apply (chat_add_end_to_end examplePlatform failingEnv workerUrl "alice"
           "add buy milk by Friday" "buy milk" (Some "Friday") emptyWorld);
    reflexivity.
Defined.

Lemma chat_list_end_to_end_witness :
  fst (fetch examplePlatform failingEnv (chatRequest workerUrl "alice" "List Tasks")
         (runAdds examplePlatform "id:alice" [callA; callB] emptyWorld))
  = Ret (replyResponse 200
           [("reply", JStr ("1. A" ++ String (ascii_of_nat 10) "2. B (due Friday)"));
            ("tasks", JArr [taskToJson (addedTask callA); taskToJson (addedTask callB)])]).
Proof.
  pose proof (chat_list_end_to_end examplePlatform failingEnv workerUrl "alice"
                "List Tasks" (runAdds examplePlatform "id:alice" [callA; callB] emptyWorld)
                eq_refl eq_refl eq_refl) as T.
  cbv zeta in T. destruct T as [T _]. rewrite T. reflexivity.
Defined.

Lemma add_acknowledged_but_not_stored_witness :
  fst (fetch examplePlatform failingEnv
         (chatRequest workerUrl "a?b" "add buy milk by Friday") emptyWorld)
  = Ret (replyResponse 200
           [("reply", JStr ("Added task " ++ quote ++ "buy milk" ++ quote
                            ++ " due by Friday."))]) /\
  tasksOf (snd (fetch examplePlatform failingEnv
                  (chatRequest workerUrl "a?b" "add buy milk by Friday") emptyWorld))
          (idFromName examplePlatform "a?b")
  = [].
Proof.
  pose proof (add_acknowledged_but_not_stored examplePlatform failingEnv workerUrl "a?b"
                "add buy milk by Friday" "buy milk" (Some "Friday") emptyWorld
                eq_refl eq_refl eq_refl) as T.
  cbv zeta in T. destruct T as (T1 & _ & _ & T4). split; [exact T1 | exact (T4 _)].
Defined.

Lemma chat_list_unroutable_user_witness :
  fetch examplePlatform failingEnv (chatRequest workerUrl "a#b" "list") emptyWorld
  = (Ret badRequest, afterRead (idFromName examplePlatform "a#b") emptyWorld).
Proof.
  apply (chat_list_unroutable_user examplePlatform failingEnv workerUrl "a#b" "list"
           emptyWorld);
    reflexivity.
Defined.

Lemma model_reply_by_shape_witness :
  fetch examplePlatform (answeringEnv (Some (completion (JStr "Hello!"))))
    (chatRequest workerUrl "alice" "hello there") emptyWorld
  = (Ret (replyResponse 200 [("reply", JStr "Hello!")]), afterModel emptyWorld).
Proof.
  refine (proj1 (proj2 (proj2
    (model_reply_by_shape examplePlatform (answeringEnv (Some (completion (JStr "Hello!"))))
       workerUrl "alice" "hello there" (completion (JStr "Hello!")) emptyWorld
       eq_refl eq_refl eq_refl)))
    _ _ _ _ (JStr "Hello!") eq_refl eq_refl eq_refl eq_refl eq_refl _).
  discriminate.
Defined.

Lemma model_null_result_is_unavailable_witness :
  fetch examplePlatform (answeringEnv (Some JNull))
    (chatRequest workerUrl "alice" "hello there") emptyWorld
  = (Ret (replyResponse 503 [("reply", JStr unavailable)]), afterModelFailure emptyWorld).
Proof.
  apply (model_null_result_is_unavailable examplePlatform (answeringEnv (Some JNull))
           workerUrl "alice" "hello there" (Some JNull) emptyWorld);
    [reflexivity | reflexivity | reflexivity | right; reflexivity].
Defined.

Lemma worker_answers_as_workflow_witness :
  fst (fetch examplePlatform (answeringEnv (Some (JObj [("response", JStr "hi")])))
         (chatRequest workerUrl "alice" "hello there") emptyWorld)
  = Ret (mkResponse 200 jsonHeaders (BodyJson (JObj [("reply", JStr "hi")]))).
Proof.
  apply (worker_answers_as_workflow examplePlatform
           (answeringEnv (Some (JObj [("response", JStr "hi")])))
           workerUrl "alice" "hello there" emptyWorld);
    reflexivity.
Defined.

